(** * Rainfall dashboard for Nigeria (2014 - 2024): the data pipeline of [app.py]

    A shallow embedding of the pandas pipeline of [src/app.py] (the reshaping
    of the wide table, the selector lists, the year slice, the top/bottom
    ranking, the national average and the per-state series), followed by the
    properties the specification states about it.

    Modelling conventions.
    - The table read from the GeoJSON file has the string column ["State"],
      if the features have such a property, and numeric columns; the
      geometry column plays no part in the pipeline and is left out.  Numeric columns are kept in file order in an
      association list, as pandas keeps its columns.
    - Rainfall values are the rationals that the float64 cells denote and the
      arithmetic on them is exact.  The data set has a value for every state
      and year; missing cells (NaN) are not part of the model.
    - An uncaught Python exception is a [Raise] result.
    - A character of a string is a code point below 256 (Latin-1); strings
      are compared and parsed as Python does on such strings.
    - pandas' [nlargest] and [nsmallest] (with [keep='first']) and Python's
      [sorted] are stable; they are modelled by one stable sort.  The output
      of a stable sort is determined by its input, so the algorithm used does
      not matter.  [sort_values] is modelled by the same sort; pandas does
      not fix its order on rows of equal keys, and the property of the state
      series is stated for tables with distinct state names, where the years
      of a series are distinct. *)

From Stdlib Require Import String Ascii DecimalString OrdersEx.
From Stdlib Require DecimalPos.
From Stdlib Require Import List Bool Arith ZArith QArith Qround Qminmax.
From Stdlib Require Import Lia Lqa Permutation Sorted.
Import ListNotations.

Local Open Scope string_scope.
Local Open Scope Z_scope.

(** ** Exceptions *)

Inductive exn : Type :=
| KeyError (missing : list string)
| ValueError (literal : string)
| OverflowError (literal : string)
| AttributeError
| StreamlitAPIException.

Inductive result (A : Type) : Type :=
| Ok (a : A)
| Raise (e : exn).

Arguments Ok {A} a.
Arguments Raise {A} e.

Definition bind {A B : Type} (r : result A) (k : A -> result B) : result B :=
  match r with
  | Ok a => k a
  | Raise e => Raise e
  end.

Notation "x <- r ;; k" := (bind r (fun x => k))
  (at level 61, r at next level, right associativity).

Fixpoint mapM {A B : Type} (f : A -> result B) (l : list A) : result (list B) :=
  match l with
  | [] => Ok []
  | a :: l' => b <- f a ;; bs <- mapM f l' ;; Ok (b :: bs)
  end.

(** ** Strings: f-strings, [str.replace] and [int] *)

(** [range(a, b)] *)
Definition range (a b : Z) : list Z :=
  map (fun i => a + Z.of_nat i) (seq 0 (Z.to_nat (b - a))).

(** [f"{year}"] *)
Definition str (z : Z) : string := NilZero.string_of_int (Z.to_int z).

(** [s.replace(pat, repl)] for a non-empty [pat]: every occurrence, found
    from left to right and not overlapping.  [skip] counts the characters of
    the current occurrence that are still to be dropped. *)
Fixpoint replace_from (pat repl : string) (skip : nat) (s : string) : string :=
  match s with
  | EmptyString => EmptyString
  | String c s' =>
      match skip with
      | S k => replace_from pat repl k s'
      | O =>
          if prefix pat s
          then repl ++ replace_from pat repl (String.length pat - 1) s'
          else String c (replace_from pat repl 0 s')
      end
  end.

Definition replace (pat repl s : string) : string := replace_from pat repl 0 s.

(** [s.removesuffix(suf)], the reading of the specification's "stripping a
    fixed suffix". *)
Definition removesuffix (suf s : string) : string :=
  let n := String.length s in
  let k := String.length suf in
  if (k <=? n)%nat && String.eqb (substring (n - k) k s) suf
  then substring 0 (n - k) s
  else s.

(** Python's [int(s)]: surrounding white space, an optional sign, then
    decimal digits that single underscores may separate.  The white space
    that [int] skips is tab to carriage return and the blank, and, of the
    characters above 127, next line (133) and the no-break space (160),
    which [int] turns into blanks first; the separators 28 to 31 are not
    skipped.  Below 256 the only decimal digits are ["0"] to ["9"]. *)
Definition is_space (c : ascii) : bool :=
  let n := N_of_ascii c in
  ((9 <=? n) && (n <=? 13) || (n =? 32) || (n =? 133) || (n =? 160))%N.

Definition digit_val (c : ascii) : option Z :=
  let n := N_of_ascii c in
  if ((48 <=? n) && (n <=? 57))%N then Some (Z.of_N n - 48) else None.

Fixpoint lstrip (s : string) : string :=
  match s with
  | String c s' => if is_space c then lstrip s' else s
  | EmptyString => EmptyString
  end.

Fixpoint rstrip (s : string) : string :=
  match s with
  | String c s' =>
      match rstrip s' with
      | EmptyString => if is_space c then EmptyString else String c EmptyString
      | t => String c t
      end
  | EmptyString => EmptyString
  end.

Fixpoint parse_digits (acc : Z) (after_digit : bool) (s : string) : option Z :=
  match s with
  | EmptyString => if after_digit then Some acc else None
  | String c s' =>
      match digit_val c with
      | Some d => parse_digits (10 * acc + d) true s'
      | None =>
          if Ascii.eqb c "_" && after_digit
          then parse_digits acc false s'
          else None
      end
  end.

Definition int (s : string) : option Z :=
  match rstrip (lstrip s) with
  | String c t =>
      if Ascii.eqb c "+" then parse_digits 0 false t
      else if Ascii.eqb c "-" then option_map Z.opp (parse_digits 0 false t)
      else parse_digits 0 false (String c t)
  | EmptyString => None
  end.





(** An element of an int64 column. *)
Definition int64_ok (z : Z) : bool := (- 2 ^ 63 <=? z) && (z <? 2 ^ 63).

(** ** The wide table *)

(** The ["State"] column, if the file has it, and the numeric columns. *)
Record GeoDataFrame : Type := {
  State_column : option (list string);
  columns : list (string * list Q)
}.

(** [gdf["State"]], without cells when the table lacks the column. *)
Definition col_State (gdf : GeoDataFrame) : list string :=
  match State_column gdf with
  | Some names => names
  | None => []
  end.

(** Every column has one cell per row. *)
Definition well_formed (gdf : GeoDataFrame) : Prop :=
  Forall (fun c => length (snd c) = length (col_State gdf)) (columns gdf).

(** [gdf[name]] *)
Fixpoint get_col (name : string) (cols : list (string * list Q)) : option (list Q) :=
  match cols with
  | [] => None
  | (n, c) :: cols' => if String.eqb n name then Some c else get_col name cols'
  end.

Definition has_col (name : string) (gdf : GeoDataFrame) : bool :=
  match get_col name (columns gdf) with Some _ => true | None => false end.

(** [gdf[name] = values]: an existing column is overwritten in place, a new
    one is appended. *)
Fixpoint set_col (name : string) (vals : list Q) (cols : list (string * list Q))
  : list (string * list Q) :=
  match cols with
  | [] => [(name, vals)]
  | (n, c) :: cols' =>
      if String.eqb n name then (n, vals) :: cols'
      else (n, c) :: set_col name vals cols'
  end.

(** ** The long table *)

(** A row of the long table; [Y] is the type of the ["Year"] cell, a string
    after [melt] and an integer after line 34. *)
Record Row (Y : Type) : Type := mkRow {
  State : string;
  Year : Y;
  Rainfall : Q
}.

Arguments mkRow {Y} State Year Rainfall.
Arguments State {Y} r.
Arguments Year {Y} r.
Arguments Rainfall {Y} r.

(** The block of rows that [melt] emits for one value column. *)
Definition block {Y : Type} (gdf : GeoDataFrame) (y : Y) (vals : list Q) : list (Row Y) :=
  map (fun sv => mkRow (fst sv) y (snd sv)) (combine (col_State gdf) vals).

Definition melt_blocks (gdf : GeoDataFrame) (value_vars : list string) : list (Row string) :=
  flat_map (fun v =>
              match get_col v (columns gdf) with
              | Some vals => block gdf v vals
              | None => []
              end) value_vars.

(** The labels among [id_vars + value_vars] that the table lacks. *)
Definition missing_labels (gdf : GeoDataFrame) (value_vars : list string) : list string :=
  ((match State_column gdf with Some _ => [] | None => ["State"] end)
   ++ filter (fun v => negb (has_col v gdf)) value_vars)%list.

(** [gdf.melt(id_vars=["State"], value_vars=..., var_name="Year",
    value_name="Rainfall (mm)")].  A table that already has a column named
    as [value_name] is refused with [ValueError]; then a [KeyError] names
    the id and value columns that the table lacks; otherwise the blocks
    follow each other in the order of [value_vars]. *)
Definition melt (gdf : GeoDataFrame) (value_vars : list string) : result (list (Row string)) :=
  if has_col "Rainfall (mm)" gdf then Raise (ValueError "Rainfall (mm)")
  else match missing_labels gdf value_vars with
       | [] => Ok (melt_blocks gdf value_vars)
       | missing => Raise (KeyError missing)
       end.

(** Line 30: [[f"{year}_mean" for year in range(2014, 2025)]] *)
Definition year_range : list Z := range 2014 2025.

Definition column_name (year : Z) : string := str year ++ "_mean".

Definition value_vars : list string := map column_name year_range.

(** Line 34 on one cell: [.str.replace("_mean", "")] then [.astype(int)]. *)
Definition year_of_token (tok : string) : result Z :=
  let t := replace "_mean" "" tok in
  match int t with
  | None => Raise (ValueError t)
  | Some z => if int64_ok z then Ok z else Raise (OverflowError t)
  end.

Definition convert_year (r : Row string) : result (Row Z) :=
  y <- year_of_token (Year r) ;; Ok (mkRow (State r) y (Rainfall r)).

(** Lines 28 to 34: [df_new]. *)
Definition df_new (gdf : GeoDataFrame) : result (list (Row Z)) :=
  melted <- melt gdf value_vars ;; mapM convert_year melted.

(** The rows of [df_new] written out: for every year of [ys], in order, the
    block of that year's column with the integer year in the ["Year"] cell. *)
Definition long_rows (gdf : GeoDataFrame) (ys : list Z) : list (Row Z) :=
  flat_map (fun y =>
              match get_col (column_name y) (columns gdf) with
              | Some vals => block gdf y vals
              | None => []
              end) ys.

(** The table has the eleven value columns. *)
Definition has_value_columns (gdf : GeoDataFrame) : Prop :=
  forall y, In y year_range -> has_col (column_name y) gdf = true.

(** The table has the ["State"] column and no column named as the value
    column of [melt]. *)
Definition meltable (gdf : GeoDataFrame) : Prop :=
  State_column gdf <> None /\ get_col "Rainfall (mm)" (columns gdf) = None.

(** ** Stable sorting, [unique], selectors *)

Section StableSort.
Context {A : Type} (le : A -> A -> bool).

(** [a] is put in front of the first element that it does not exceed, so
    it stays in front of the equal elements that followed it. *)
Fixpoint insert (a : A) (l : list A) : list A :=
  match l with
  | [] => [a]
  | b :: l' => if le a b then a :: l else b :: insert a l'
  end.

Fixpoint sort (l : list A) : list A :=
  match l with
  | [] => []
  | a :: l' => insert a (sort l')
  end.
End StableSort.

(** Below with respect to [le], and different. *)
Definition strictly {A : Type} (le : A -> A -> bool) (a b : A) : Prop :=
  le a b = true /\ a <> b.

(** [Series.unique()]: the distinct values in order of first appearance. *)
Fixpoint unique {A : Type} (eqb : A -> A -> bool) (l : list A) : list A :=
  match l with
  | [] => []
  | a :: l' => a :: filter (fun b => negb (eqb a b)) (unique eqb l')
  end.

(** [sorted(column.unique())] on a column of integers and on a column of
    strings (Python compares strings by code point). *)
Definition sorted_unique_Z (col : list Z) : list Z := sort Z.leb (unique Z.eqb col).

Definition sorted_unique_str (col : list string) : list string :=
  sort String.leb (unique String.eqb col).

(** Lines 37 and 38. *)
Definition years (df : list (Row Z)) : list Z := sorted_unique_Z (map Year df).

Definition states (df : list (Row Z)) : list string := sorted_unique_str (map State df).

(** [st.selectbox(label, options, index=index)].  With no options the widget
    returns [None]; an index outside the options is refused; otherwise the
    value is the option the user picked ([picked] is its position), and the
    option at [index] as long as nothing was picked. *)
Definition selectbox {A : Type} (options : list A) (index : Z) (picked : option nat)
  : result (option A) :=
  match options with
  | [] => Ok None
  | _ =>
      if (0 <=? index) && (index <? Z.of_nat (length options))
      then match picked with
           | Some i =>
               match nth_error options i with
               | Some v => Ok (Some v)
               | None => Ok (nth_error options (Z.to_nat index))
               end
           | None => Ok (nth_error options (Z.to_nat index))
           end
      else Raise StreamlitAPIException
  end.

(** Line 46: [index=len(years)-1]. *)
Definition year_selected (df : list (Row Z)) (picked : option nat) : result (option Z) :=
  selectbox (years df) (Z.of_nat (length (years df)) - 1) picked.

(** Line 142: [index=0]. *)
Definition state_selected (df : list (Row Z)) (picked : option nat) : result (option string) :=
  selectbox (states df) 0 picked.

(** ** Year slice, ranking, national average, state series *)

(** Line 50: [df_new[df_new['Year'] == year_selected]] *)
Definition year_data (df : list (Row Z)) (year : Z) : list (Row Z) :=
  filter (fun r => Year r =? year) df.

(** The two orders on rows that the ranking uses: by the value of a column,
    the larger or the smaller value first. *)
Definition descending {A : Type} (key : A -> Q) (a b : A) : bool := Qle_bool (key b) (key a).

Definition ascending {A : Type} (key : A -> Q) (a b : A) : bool := Qle_bool (key a) (key b).

(** [frame.nlargest(n, column)] and [frame.nsmallest(n, column)] with the
    default [keep='first']: the first [n] rows of the table ordered by the
    column, rows with equal values staying in table order. *)
Definition nlargest {A : Type} (n : nat) (key : A -> Q) (l : list A) : list A :=
  firstn n (sort (descending key) l).

Definition nsmallest {A : Type} (n : nat) (key : A -> Q) (l : list A) : list A :=
  firstn n (sort (ascending key) l).

(** [[['State', 'Rainfall (mm)']]] *)
Definition state_rainfall (r : Row Z) : string * Q := (State r, Rainfall r).

(** Lines 78 and 79. *)
Definition top3 (slice : list (Row Z)) : list (string * Q) :=
  map state_rainfall (nlargest 3 Rainfall slice).

Definition low3 (slice : list (Row Z)) : list (string * Q) :=
  map state_rainfall (nsmallest 3 Rainfall slice).

(** Lines 82 to 91: what the side column shows under a heading. *)
Inductive widget : Type :=
| table (rows : list (string * Q))
| write (text : string).

Definition show_ranking (rows : list (string * Q)) : widget :=
  match rows with
  | [] => write "No data"
  | _ => table rows
  end.

Local Open Scope Q_scope.

Definition sum (l : list Q) : Q := fold_right Qplus 0 l.

(** [Series.mean()]: the sum of the cells divided by their number; [None]
    stands for the absence of a number, the case of an empty column. *)
Definition mean (l : list Q) : option Q :=
  match l with
  | [] => None
  | _ => Some (sum l / inject_Z (Z.of_nat (length l)))
  end.

(** Rounding to the nearest integer, halves to the even neighbour. *)
Definition rint (x : Q) : Z :=
  let f := Qfloor x in
  match Qcompare (x - inject_Z f) (1 # 2) with
  | Lt => f
  | Gt => (f + 1)%Z
  | Eq => if Z.even f then f else (f + 1)%Z
  end.

(** [x.round(decimals)] of numpy: scale, round to the nearest integer,
    scale back. *)
Definition round (decimals : nat) (x : Q) : Q :=
  let scale := inject_Z (10 ^ Z.of_nat decimals) in
  inject_Z (rint (x * scale)) / scale.

(** Line 95: [.mean().round(3)].  The mean of an empty column is the plain
    float [nan], which has no [round] method. *)
Definition national_avg (slice : list (Row Z)) : result Q :=
  match mean (map Rainfall slice) with
  | Some m => Ok (round 3 m)
  | None => Raise AttributeError
  end.

(** Line 98: [min()] and [max()] of the column, none for an empty one. *)
Definition col_min (l : list Q) : option Q :=
  match l with
  | [] => None
  | x :: l' => Some (fold_left Qmin l' x)
  end.

Definition col_max (l : list Q) : option Q :=
  match l with
  | [] => None
  | x :: l' => Some (fold_left Qmax l' x)
  end.

(** Line 99: [Normalize(vmin, vmax)(value)] of matplotlib, without clipping:
    0 when the two bounds coincide. *)
Definition Normalize (vmin vmax value : Q) : Q :=
  if Qeq_bool vmin vmax then 0 else (value - vmin) / (vmax - vmin).

(** Lines 95 to 101: the value handed to the colour map.  A slice that has
    an average has rows, hence a minimum and a maximum. *)
Definition norm_national_avg (slice : list (Row Z)) : result Q :=
  avg <- national_avg slice ;;
  match col_min (map Rainfall slice), col_max (map Rainfall slice) with
  | Some vmin, Some vmax => Ok (Normalize vmin vmax avg)
  | _, _ => Raise AttributeError
  end.

Local Close Scope Q_scope.

(** Line 143: [df_new[df_new['State'] == state_selected].sort_values('Year')] *)
Definition state_data (df : list (Row Z)) (state : string) : list (Row Z) :=
  sort (fun a b => Year a <=? Year b) (filter (fun r => String.eqb (State r) state) df).

(** ** The cached table and the write of line 58 *)

(** Lines 13 to 17.  [st.cache_data] stores what the first call returned and
    gives every call a copy of the stored value.  The result is the cache
    after the call and the table bound to [gdf]. *)
Definition load_data (file : GeoDataFrame) (cache : option GeoDataFrame)
  : option GeoDataFrame * GeoDataFrame :=
  match cache with
  | Some stored => (cache, stored)
  | None => (Some file, file)
  end.

(** Line 57: [f"{year_selected}_mean"]; the selection is [None] when the
    selector had no options. *)
Definition selected_column (sel : option Z) : string :=
  match sel with
  | Some y => column_name y
  | None => "None_mean"
  end.

(** Line 58: [gdf['Rainfall (mm)'] = gdf[column_name].astype(float)] *)
Definition assign_rainfall (sel : option Z) (gdf : GeoDataFrame) : result GeoDataFrame :=
  match get_col (selected_column sel) (columns gdf) with
  | None => Raise (KeyError [selected_column sel])
  | Some vals =>
      Ok {| State_column := State_column gdf;
            columns := set_col "Rainfall (mm)" vals (columns gdf) |}
  end.

(** One run of the script down to line 58: the cache and the table [gdf] as
    the run leaves them. *)
Definition run (file : GeoDataFrame) (cache : option GeoDataFrame) (picked : option nat)
  : result (option GeoDataFrame * GeoDataFrame) :=
  let (cache', gdf) := load_data file cache in
  df <- df_new gdf ;;
  sel <- year_selected df picked ;;
  gdf' <- assign_rainfall sel gdf ;;
  Ok (cache', gdf').

(** ** The label of the donut chart (line 118) *)

(** ["blue" if norm(national_avg) > 0.5 else "black"] *)
Definition font_color (slice : list (Row Z)) : result string :=
  n <- norm_national_avg slice ;;
  Ok (if Qle_bool n (1 # 2) then "black" else "blue").


(** ** The information dialog (lines 149 to 193) *)

(** What [st.button] returns in a run for the button of the dialog and for
    the button of the side bar. *)
Record buttons : Type := {
  modal_ok_btn : bool;
  sidebar_info_btn : bool
}.

(** What a run of lines 185 to 193 leaves: [st.session_state.show_info]
    ([None] while the key is absent), whether the dialog was opened, whether
    the side bar button was drawn and whether [st.rerun()] was called. *)
Record info_run : Type := {
  show_info : option bool;
  dialog : bool;
  sidebar_button : bool;
  rerun : bool
}.

(** Lines 150 to 181, the body of [show_info_modal] on the session state:
    the OK button clears the flag and asks for a rerun. *)
Definition show_info_modal (flag : option bool) (b : buttons) : option bool * bool :=
  if modal_ok_btn b then (Some false, true) else (flag, false).

(** Lines 185 to 193. *)
Definition info_script (flag : option bool) (b : buttons) : info_run :=
  let flag1 := match flag with None => Some true | Some _ => flag end in
  match flag1 with
  | Some true =>
      let (flag2, rr) := show_info_modal flag1 b in
      {| show_info := flag2; dialog := true; sidebar_button := false; rerun := rr |}
  | _ =>
      if sidebar_info_btn b
      then let (flag2, rr) := show_info_modal flag1 b in
           {| show_info := flag2; dialog := true; sidebar_button := true; rerun := rr |}
      else {| show_info := flag1; dialog := false; sidebar_button := true; rerun := false |}
  end.

(** The flag after a sequence of runs of one session. *)
Definition session (flag : option bool) (runs : list buttons) : option bool :=
  fold_left (fun f b => show_info (info_script f b)) runs flag.

(** ** A small data set: the three-region, two-year table of the
    specification's end-to-end example, completed to the eleven years. *)

Definition sample_column (y : Z) : string * list Q :=
  (column_name y,
   if y =? 2014 then [100 # 1; 200 # 1; 300 # 1]%Q
   else [150 # 1; 50 # 1; 300 # 1]%Q).

Definition sample : GeoDataFrame :=
  {| State_column := Some ["A"; "B"; "C"]; columns := map sample_column year_range |}.

(** A year slice whose values are less than 0.0005 apart and not multiples
    of 0.001: 1000.0004, 1000.0004 and 1000.0005 mm. *)
Definition close_slice : list (Row Z) :=
  [mkRow "A" 2014 (10000004 # 10000);
   mkRow "B" 2014 (10000004 # 10000);
   mkRow "C" 2014 (10000005 # 10000)].


(** * Properties *)

(** ** The stable sort *)

Section SortFacts.
Context {A : Type} (le : A -> A -> bool).

Lemma insert_perm (a : A) (l : list A) : Permutation (insert le a l) (a :: l).
Proof.
  induction l as [|b l IH]; simpl; [reflexivity|].
  destruct (le a b); [reflexivity|].
  rewrite IH. apply perm_swap.
Qed.

Lemma sort_perm (l : list A) : Permutation (sort le l) l.
Proof.
  induction l as [|a l IH]; simpl; [reflexivity|].
  rewrite insert_perm. now constructor.
Qed.

Lemma sort_In (l : list A) (x : A) : In x (sort le l) <-> In x l.
Proof.
  split; apply Permutation_in; [|symmetry]; apply sort_perm.
Qed.

Lemma sort_length (l : list A) : length (sort le l) = length l.
Proof. apply Permutation_length, sort_perm. Qed.

(** Stability: rows that the order does not separate keep their order. *)
Lemma filter_insert (p : A -> bool) (a : A) (l : list A) :
  (forall x y, p x = true -> p y = true -> le x y = true) ->
  filter p (insert le a l) = filter p (a :: l).
Proof.
  intros Hp. induction l as [|b l IH]; [reflexivity|].
  simpl insert. destruct (le a b) eqn:Hab; [reflexivity|].
  simpl in *. rewrite IH.
  destruct (p a) eqn:Ha, (p b) eqn:Hb; try reflexivity.
  rewrite (Hp a b Ha Hb) in Hab. discriminate.
Qed.

Lemma sort_stable (p : A -> bool) (l : list A) :
  (forall x y, p x = true -> p y = true -> le x y = true) ->
  filter p (sort le l) = filter p l.
Proof.
  intros Hp. induction l as [|a l IH]; [reflexivity|].
  simpl sort. rewrite filter_insert by exact Hp.
  simpl. now rewrite IH.
Qed.

Lemma sort_sorted_id (l : list A) : Sorted (fun a b => le a b = true) l -> sort le l = l.
Proof.
  induction 1 as [|a l Hs IH Hhd]; [reflexivity|].
  simpl. rewrite IH. destruct Hhd as [|b l Hab]; [reflexivity|].
  simpl. now rewrite Hab.
Qed.

Hypothesis le_total : forall a b, le a b = true \/ le b a = true.

Lemma insert_sorted (a : A) (l : list A) : Sorted (fun a b => le a b = true) l -> Sorted (fun a b => le a b = true) (insert le a l).
Proof.
  induction 1 as [|b l Hs IH Hhd]; simpl.
  - repeat constructor.
  - destruct (le a b) eqn:Hab.
    + repeat constructor; assumption.
    + constructor; [exact IH|].
      destruct (le_total a b) as [H|H]; [congruence|].
      destruct Hhd as [|c l Hbc]; simpl.
      * now constructor.
      * destruct (le a c); now constructor.
Qed.

Lemma sort_sorted (l : list A) : Sorted (fun a b => le a b = true) (sort le l).
Proof.
  induction l as [|a l IH]; simpl; [constructor|].
  now apply insert_sorted.
Qed.

Hypothesis le_trans : forall a b c, le a b = true -> le b c = true -> le a c = true.

Lemma sort_strongly_sorted (l : list A) : StronglySorted (fun a b => le a b = true) (sort le l).
Proof.
  apply Sorted_StronglySorted; [|apply sort_sorted].
  intros a b c. apply le_trans.
Qed.
End SortFacts.

Lemma map_insert {A B : Type} (f : A -> B) (le : A -> A -> bool) (le' : B -> B -> bool)
    (a : A) (l : list A) :
  (forall x y, le' (f x) (f y) = le x y) ->
  map f (insert le a l) = insert le' (f a) (map f l).
Proof.
  intros H. induction l as [|b l IH]; [reflexivity|].
  simpl. rewrite H. destruct (le a b); simpl; [reflexivity|]. now rewrite IH.
Qed.

Lemma map_sort {A B : Type} (f : A -> B) (le : A -> A -> bool) (le' : B -> B -> bool)
    (l : list A) :
  (forall x y, le' (f x) (f y) = le x y) ->
  map f (sort le l) = sort le' (map f l).
Proof.
  intros H. induction l as [|a l IH]; [reflexivity|].
  simpl. rewrite (map_insert f le le') by exact H. now rewrite IH.
Qed.

Lemma In_firstn {A : Type} (n : nat) (l : list A) (x : A) : In x (firstn n l) -> In x l.
Proof.
  intros H. rewrite <- (firstn_skipn n l). apply in_or_app. now left.
Qed.

Lemma In_skipn {A : Type} (n : nat) (l : list A) (x : A) : In x (skipn n l) -> In x l.
Proof.
  intros H. rewrite <- (firstn_skipn n l). apply in_or_app. now right.
Qed.

Lemma StronglySorted_firstn {A : Type} (R : A -> A -> Prop) (n : nat) (l : list A) :
  StronglySorted R l -> StronglySorted R (firstn n l).
Proof.
  intros H. revert n. induction H as [|a l Hs IH Hall]; intros [|n]; simpl; try constructor.
  - apply IH.
  - rewrite Forall_forall in *. intros x Hx. apply Hall.
    now apply (In_firstn n).
Qed.

Lemma StronglySorted_firstn_skipn {A : Type} (R : A -> A -> Prop) (n : nat) (l : list A) :
  StronglySorted R l ->
  forall x y, In x (firstn n l) -> In y (skipn n l) -> R x y.
Proof.
  intros H. revert n. induction H as [|a l Hs IH Hall]; intros n x y Hx Hy.
  - rewrite firstn_nil in Hx. destruct Hx.
  - destruct n as [|n]; simpl in *; [destruct Hx|].
    destruct Hx as [<-|Hx].
    + rewrite Forall_forall in Hall. apply Hall. now apply (In_skipn n).
    + now apply (IH n).
Qed.

Lemma filter_firstn_prefix {A : Type} (p : A -> bool) (n : nat) (l : list A) :
  exists k, filter p (firstn n l) = firstn k (filter p l).
Proof.
  revert n. induction l as [|a l IH]; intros n.
  - exists O. now rewrite firstn_nil.
  - destruct n as [|n]; [now exists O|].
    simpl. destruct (IH n) as [k Hk]. destruct (p a).
    + exists (S k). simpl. now rewrite Hk.
    + now exists k.
Qed.

Lemma StronglySorted_impl {A : Type} (R R' : A -> A -> Prop) (l : list A) :
  (forall a b, R a b -> R' a b) -> StronglySorted R l -> StronglySorted R' l.
Proof.
  intros H. induction 1 as [|a l Hs IH Hall]; constructor; [exact IH|].
  eapply Forall_impl; [|exact Hall]. intros b. apply H.
Qed.

(** ** Ranking (lines 78 and 79) *)

Section Ranking.
Context {A : Type} (key : A -> Q).

Lemma Qle_bool_total (x y : Q) : Qle_bool x y = true \/ Qle_bool y x = true.
Proof.
  rewrite !Qle_bool_iff. destruct (Qlt_le_dec x y) as [H|H]; [left|right]; trivial.
  now apply Qlt_le_weak.
Qed.

Lemma Qle_bool_trans (x y z : Q) :
  Qle_bool x y = true -> Qle_bool y z = true -> Qle_bool x z = true.
Proof. rewrite !Qle_bool_iff. apply Qle_trans. Qed.

Lemma nlargest_sorted (n : nat) (l : list A) :
  StronglySorted (fun a b => (key b <= key a)%Q) (nlargest n key l).
Proof.
  apply StronglySorted_firstn.
  apply StronglySorted_impl with (R := fun a b => (descending key) a b = true).
  - intros a b. apply Qle_bool_iff.
  - apply sort_strongly_sorted.
    + intros a b. apply Qle_bool_total.
    + intros a b c H1 H2. exact (Qle_bool_trans _ _ _ H2 H1).
Qed.

Lemma nsmallest_sorted (n : nat) (l : list A) :
  StronglySorted (fun a b => (key a <= key b)%Q) (nsmallest n key l).
Proof.
  apply StronglySorted_firstn.
  apply StronglySorted_impl with (R := fun a b => (ascending key) a b = true).
  - intros a b. apply Qle_bool_iff.
  - apply sort_strongly_sorted.
    + intros a b. apply Qle_bool_total.
    + intros a b c. apply Qle_bool_trans.
Qed.

Lemma nlargest_length (n : nat) (l : list A) :
  length (nlargest n key l) = Nat.min n (length l).
Proof. unfold nlargest. now rewrite length_firstn, sort_length. Qed.

Lemma nsmallest_length (n : nat) (l : list A) :
  length (nsmallest n key l) = Nat.min n (length l).
Proof. unfold nsmallest. now rewrite length_firstn, sort_length. Qed.

Lemma nlargest_all (n : nat) (l : list A) :
  (length l <= n)%nat -> Permutation (nlargest n key l) l.
Proof.
  intros H. unfold nlargest. rewrite firstn_all2 by now rewrite sort_length.
  apply sort_perm.
Qed.

Lemma nsmallest_all (n : nat) (l : list A) :
  (length l <= n)%nat -> Permutation (nsmallest n key l) l.
Proof.
  intros H. unfold nsmallest. rewrite firstn_all2 by now rewrite sort_length.
  apply sort_perm.
Qed.

(** The rows left out are no larger than the rows kept. *)
Lemma nlargest_rest (n : nat) (l : list A) :
  exists rest, Permutation l (nlargest n key l ++ rest) /\
    forall t r, In t (nlargest n key l) -> In r rest -> (key r <= key t)%Q.
Proof.
  exists (skipn n (sort (descending key) l)). split.
  - unfold nlargest. rewrite firstn_skipn. symmetry. apply sort_perm.
  - intros t r Ht Hr. apply Qle_bool_iff.
    apply (StronglySorted_firstn_skipn (fun a b => (descending key) a b = true) n
             (sort (descending key) l)); trivial.
    apply sort_strongly_sorted.
    + intros a b. apply Qle_bool_total.
    + intros a b c H1 H2. exact (Qle_bool_trans _ _ _ H2 H1).
Qed.

Lemma nsmallest_rest (n : nat) (l : list A) :
  exists rest, Permutation l (nsmallest n key l ++ rest) /\
    forall b r, In b (nsmallest n key l) -> In r rest -> (key b <= key r)%Q.
Proof.
  exists (skipn n (sort (ascending key) l)). split.
  - unfold nsmallest. rewrite firstn_skipn. symmetry. apply sort_perm.
  - intros t r Ht Hr. apply Qle_bool_iff.
    apply (StronglySorted_firstn_skipn (fun a b => (ascending key) a b = true) n
             (sort (ascending key) l)); trivial.
    apply sort_strongly_sorted.
    + intros a b. apply Qle_bool_total.
    + intros a b c. apply Qle_bool_trans.
Qed.

(** [keep='first']: among rows of one value, the earliest ones of the table
    are kept, in table order. *)
Lemma nlargest_ties (n : nat) (l : list A) (v : Q) :
  exists k, filter (fun r => Qeq_bool (key r) v) (nlargest n key l)
            = firstn k (filter (fun r => Qeq_bool (key r) v) l).
Proof.
  destruct (filter_firstn_prefix (fun r => Qeq_bool (key r) v) n (sort (descending key) l))
    as [k Hk].
  exists k. unfold nlargest. rewrite Hk. f_equal.
  apply sort_stable. intros x y Hx Hy. apply Qle_bool_iff.
  apply Qeq_bool_iff in Hx, Hy. rewrite Hx, Hy. apply Qle_refl.
Qed.

Lemma nsmallest_ties (n : nat) (l : list A) (v : Q) :
  exists k, filter (fun r => Qeq_bool (key r) v) (nsmallest n key l)
            = firstn k (filter (fun r => Qeq_bool (key r) v) l).
Proof.
  destruct (filter_firstn_prefix (fun r => Qeq_bool (key r) v) n (sort (ascending key) l))
    as [k Hk].
  exists k. unfold nsmallest. rewrite Hk. f_equal.
  apply sort_stable. intros x y Hx Hy. apply Qle_bool_iff.
  apply Qeq_bool_iff in Hx, Hy. rewrite Hx, Hy. apply Qle_refl.
Qed.

(** A row of the bottom list that is not in the top list lies below it. *)
Lemma nlargest_above_outsider (n : nat) (l : list A) (t b : A) :
  In t (nlargest n key l) -> In b l -> ~ In b (nlargest n key l) ->
  (key b <= key t)%Q.
Proof.
  intros Ht Hb Hout. destruct (nlargest_rest n l) as [rest [Hperm Hrest]].
  apply (Permutation_in _ Hperm) in Hb. apply in_app_or in Hb.
  destruct Hb as [Hb|Hb]; [contradiction|]. now apply Hrest.
Qed.
End Ranking.

Lemma top3_rows (slice : list (Row Z)) :
  top3 slice = nlargest 3 snd (map state_rainfall slice).
Proof.
  unfold top3, nlargest. rewrite <- firstn_map. f_equal. now apply map_sort.
Qed.

Lemma low3_rows (slice : list (Row Z)) :
  low3 slice = nsmallest 3 snd (map state_rainfall slice).
Proof.
  unfold low3, nsmallest. rewrite <- firstn_map. f_equal. now apply map_sort.
Qed.

(** C3.  The two ranking tables of a year slice.  Each has [min 3 n] rows of
    the [n] rows of the slice, so at most three, and all of them when the
    slice has fewer than three.  The top table is in descending and the
    bottom table in ascending order of rainfall; the rows left out of the
    top table are no larger than its rows, those left out of the bottom table
    no smaller.  Among rows of equal rainfall the earliest rows of the slice
    are taken, in slice order.  If no row is in both tables, every value of
    the top table is at least every value of the bottom table. *)
Theorem rank_extremes_top3_low3 (slice : list (Row Z)) :
  let rows := map state_rainfall slice in
  let top := top3 slice in
  let low := low3 slice in
  (length top = Nat.min 3 (length rows) /\ length low = Nat.min 3 (length rows)) /\
  ((length rows < 3)%nat -> Permutation top rows /\ Permutation low rows) /\
  (exists rest, Permutation rows (top ++ rest) /\
     forall t r, In t top -> In r rest -> (snd r <= snd t)%Q) /\
  (exists rest, Permutation rows (low ++ rest) /\
     forall b r, In b low -> In r rest -> (snd b <= snd r)%Q) /\
  StronglySorted (fun a b => (snd b <= snd a)%Q) top /\
  StronglySorted (fun a b => (snd a <= snd b)%Q) low /\
  (forall v, exists k, filter (fun r => Qeq_bool (snd r) v) top
                       = firstn k (filter (fun r => Qeq_bool (snd r) v) rows)) /\
  (forall v, exists k, filter (fun r => Qeq_bool (snd r) v) low
                       = firstn k (filter (fun r => Qeq_bool (snd r) v) rows)) /\
  ((forall x, In x top -> ~ In x low) ->
   forall t b, In t top -> In b low -> (snd b <= snd t)%Q).
Proof.
  intros rows top low. subst top low. rewrite top3_rows, low3_rows. fold rows.
  repeat split.
  - apply nlargest_length.
  - apply nsmallest_length.
  - apply nlargest_all. lia.
  - apply nsmallest_all. lia.
  - apply nlargest_rest.
  - apply nsmallest_rest.
  - apply nlargest_sorted.
  - apply nsmallest_sorted.
  - apply nlargest_ties.
  - apply nsmallest_ties.
  - intros Hdisj t b Ht Hb.
    apply (nlargest_above_outsider snd 3 rows); trivial.
    + apply (In_firstn 3) in Hb. now apply sort_In in Hb.
    + intros Hin. exact (Hdisj b Hin Hb).
Qed.

Lemma rank_extremes_top3_low3_witness :
  (snd ("A", 100 # 1) <= snd ("F", 600 # 1))%Q.
Proof.
  apply (rank_extremes_top3_low3
           [mkRow "A" 2014 (100 # 1); mkRow "B" 2014 (200 # 1); mkRow "C" 2014 (300 # 1);
            mkRow "D" 2014 (400 # 1); mkRow "E" 2014 (500 # 1); mkRow "F" 2014 (600 # 1)]).
  - intros x Ht Hb. simpl in Ht, Hb.
    repeat (destruct Ht as [Ht|Ht]; [subst x; intuition discriminate|]). exact Ht.
  - simpl. now left.
  - simpl. now left.
Defined.

(** ** The selector lists (lines 37 and 38) *)

Section Distinct.
Context {A : Type} (eqb : A -> A -> bool).
Hypothesis eqb_eq : forall a b, eqb a b = true <-> a = b.

Lemma unique_In (l : list A) (x : A) : In x (unique eqb l) <-> In x l.
Proof.
  induction l as [|a l IH]; simpl; [tauto|].
  rewrite filter_In, IH. split.
  - tauto.
  - intros [H|H]; [now left|].
    destruct (eqb a x) eqn:E.
    + left. now apply eqb_eq.
    + right. now split.
Qed.

Lemma unique_NoDup (l : list A) : NoDup (unique eqb l).
Proof.
  induction l as [|a l IH]; simpl; constructor.
  - rewrite filter_In. intros [_ H].
    assert (E : eqb a a = true) by now apply eqb_eq.
    rewrite E in H. discriminate.
  - now apply NoDup_filter.
Qed.

Lemma unique_NoDup_id (l : list A) : NoDup l -> unique eqb l = l.
Proof.
  induction 1 as [|a l Hin Hnd IH]; simpl; [reflexivity|].
  rewrite IH. f_equal. apply forallb_filter_id, forallb_forall.
  intros x Hx. destruct (eqb a x) eqn:E; [|reflexivity].
  apply eqb_eq in E. now subst.
Qed.

Context (le : A -> A -> bool).
Hypothesis le_total : forall a b, le a b = true \/ le b a = true.
Hypothesis le_trans : forall a b c, le a b = true -> le b c = true -> le a c = true.

Lemma sorted_unique_NoDup (l : list A) : NoDup (sort le (unique eqb l)).
Proof.
  apply (Permutation_NoDup (l := unique eqb l)); [|apply unique_NoDup].
  symmetry. apply sort_perm.
Qed.

Lemma StronglySorted_strictly (l : list A) :
  StronglySorted (fun a b => le a b = true) l -> NoDup l -> StronglySorted (strictly le) l.
Proof.
  induction 1 as [|a l Hs IH Hall]; intros Hnd; constructor.
  - apply IH. now inversion Hnd.
  - inversion_clear Hnd as [|? ? Hin _]. rewrite Forall_forall in *.
    intros x Hx. split; [now apply Hall|]. intros ->. contradiction.
Qed.

Lemma sorted_unique_strict (l : list A) : StronglySorted (strictly le) (sort le (unique eqb l)).
Proof.
  apply StronglySorted_strictly; [|apply sorted_unique_NoDup].
  now apply sort_strongly_sorted.
Qed.

Lemma sorted_unique_idem (l : list A) :
  sort le (unique eqb (sort le (unique eqb l))) = sort le (unique eqb l).
Proof.
  rewrite unique_NoDup_id by apply sorted_unique_NoDup.
  apply sort_sorted_id. now apply sort_sorted.
Qed.

Lemma sorted_unique_In (l : list A) (x : A) : In x (sort le (unique eqb l)) <-> In x l.
Proof. now rewrite sort_In, unique_In. Qed.
End Distinct.

Lemma string_compare_OT (a b : string) : String.compare a b = String_as_OT.compare a b.
Proof.
  revert b. induction a as [|c a IH]; intros [|d b]; reflexivity.
Qed.

Lemma string_ltb_trans (a b c : string) :
  String.ltb a b = true -> String.ltb b c = true -> String.ltb a c = true.
Proof.
  unfold String.ltb. intros H1 H2.
  rewrite string_compare_OT in H1, H2 |- *.
  destruct (String_as_OT.compare a b) eqn:Hab; try discriminate H1.
  destruct (String_as_OT.compare b c) eqn:Hbc; try discriminate H2.
  assert (H : String_as_OT.lt a c)
    by (transitivity b; [exact Hab | exact Hbc]).
  unfold String_as_OT.lt in H. now rewrite H.
Qed.

Lemma string_leb_ltb (a b : string) :
  String.leb a b = true <-> String.ltb a b = true \/ a = b.
Proof.
  unfold String.leb, String.ltb. split.
  - destruct (String.compare a b) eqn:E; intros H; try discriminate H.
    + right. now apply String.compare_eq_iff.
    + now left.
  - intros [H| ->].
    + now destruct (String.compare a b).
    + pose proof (String.compare_antisym b b) as E.
      destruct (String.compare b b); [reflexivity | reflexivity | discriminate E].
Qed.

Lemma string_leb_trans (a b c : string) :
  String.leb a b = true -> String.leb b c = true -> String.leb a c = true.
Proof.
  rewrite !string_leb_ltb. intros [H1| ->] [H2| ->]; auto.
  left. now apply (string_ltb_trans a b c).
Qed.

Lemma Z_leb_total (a b : Z) : (a <=? b) = true \/ (b <=? a) = true.
Proof. rewrite !Z.leb_le. lia. Qed.

Lemma Z_leb_trans (a b c : Z) : (a <=? b) = true -> (b <=? c) = true -> (a <=? c) = true.
Proof. rewrite !Z.leb_le. lia. Qed.

Lemma sorted_unique_Z_strict (col : list Z) : StronglySorted Z.lt (sorted_unique_Z col).
Proof.
  apply StronglySorted_impl with (R := strictly Z.leb).
  - intros a b [H1 H2]. apply Z.leb_le in H1. lia.
  - apply sorted_unique_strict;
      [apply Z.eqb_eq | apply Z_leb_total | apply Z_leb_trans].
Qed.

Lemma sorted_unique_str_strict (col : list string) :
  StronglySorted (fun a b => String.ltb a b = true) (sorted_unique_str col).
Proof.
  apply StronglySorted_impl with (R := strictly String.leb).
  - intros a b [H1 H2]. apply string_leb_ltb in H1. tauto.
  - apply sorted_unique_strict;
      [apply String.eqb_eq | apply String.leb_total | apply string_leb_trans].
Qed.

(** C6.  [sorted(column.unique())], which gives [years] and [states], lists
    exactly the values of the column, without repetition, each entry strictly
    below all later ones (integers by value, strings in lexicographic order),
    and applying it to its own result changes nothing. *)
Theorem distinct_sorted_idempotent (df : list (Row Z)) :
  (StronglySorted Z.lt (years df) /\ NoDup (years df) /\
   (forall y, In y (years df) <-> In y (map Year df)) /\
   sorted_unique_Z (years df) = years df) /\
  (StronglySorted (fun a b => String.ltb a b = true) (states df) /\ NoDup (states df) /\
   (forall s, In s (states df) <-> In s (map State df)) /\
   sorted_unique_str (states df) = states df).
Proof.
  unfold years, states. split; repeat split.
  - apply sorted_unique_Z_strict.
  - apply sorted_unique_NoDup, Z.eqb_eq.
  - apply sorted_unique_In, Z.eqb_eq.
  - apply sorted_unique_In, Z.eqb_eq.
  - apply sorted_unique_idem; [apply Z.eqb_eq | apply Z_leb_total].
  - apply sorted_unique_str_strict.
  - apply sorted_unique_NoDup, String.eqb_eq.
  - apply sorted_unique_In, String.eqb_eq.
  - apply sorted_unique_In, String.eqb_eq.
  - apply sorted_unique_idem; [apply String.eqb_eq | apply String.leb_total].
Qed.

(** ** The selectors (lines 46 and 142) *)

Lemma sorted_first_least {A : Type} (R : A -> A -> Prop) (l : list A) (m : A) :
  StronglySorted R l -> nth_error l 0 = Some m -> forall x, In x l -> x = m \/ R m x.
Proof.
  intros Hs Hm x Hx. destruct Hs as [|a l Hs Hall]; [destruct Hx|].
  simpl in Hm. injection Hm as ->. destruct Hx as [->|Hx]; [now left|right].
  rewrite Forall_forall in Hall. now apply Hall.
Qed.

Lemma sorted_last_greatest {A : Type} (R : A -> A -> Prop) (l : list A) (m : A) :
  StronglySorted R l -> nth_error l (length l - 1) = Some m ->
  forall x, In x l -> x = m \/ R x m.
Proof.
  induction 1 as [|a l Hs IH Hall]; intros Hm x Hx; [destruct Hx|].
  destruct l as [|b l].
  - simpl in Hm. injection Hm as ->. destruct Hx as [->|[]]. now left.
  - assert (Hm' : nth_error (b :: l) (length (b :: l) - 1) = Some m).
    { simpl in *. now rewrite Nat.sub_0_r in *. }
    destruct Hx as [->|Hx].
    + right. rewrite Forall_forall in Hall. apply Hall.
      eapply nth_error_In, Hm'.
    + now apply IH.
Qed.

Lemma selectbox_first {A : Type} (options : list A) :
  options <> [] -> exists v, selectbox options 0 None = Ok (Some v) /\ nth_error options 0 = Some v.
Proof.
  destruct options as [|a l]; [congruence|]. intros _. exists a.
  unfold selectbox.
  replace ((0 <=? 0) && (0 <? Z.of_nat (length (a :: l)))) with true; [now split|].
  symmetry. apply andb_true_iff. split; [reflexivity|]. apply Z.ltb_lt. simpl. lia.
Qed.

Lemma selectbox_last {A : Type} (options : list A) :
  options <> [] ->
  exists v, selectbox options (Z.of_nat (length options) - 1) None = Ok (Some v) /\
            nth_error options (length options - 1) = Some v.
Proof.
  intros Hne.
  assert (Hlen : (0 < length options)%nat) by (destruct options; [congruence | simpl; lia]).
  destruct (nth_error options (length options - 1)) as [v|] eqn:Hv.
  - exists v. split; [|reflexivity]. unfold selectbox.
    destruct options as [|a l]; [congruence|].
    replace ((0 <=? Z.of_nat (length (a :: l)) - 1)
             && (Z.of_nat (length (a :: l)) - 1 <? Z.of_nat (length (a :: l)))) with true.
    + replace (Z.to_nat (Z.of_nat (length (a :: l)) - 1)) with (length (a :: l) - 1)%nat by lia.
      now rewrite Hv.
    + symmetry. apply andb_true_iff. split; [apply Z.leb_le | apply Z.ltb_lt]; lia.
  - apply nth_error_None in Hv. lia.
Qed.

(** C9.  On a non-empty table and before the user has picked anything, the
    year selector holds the greatest entry of [years] and the state selector
    the least entry of [states] in lexicographic order. *)
Theorem selector_defaults (df : list (Row Z)) :
  df <> [] ->
  exists y s,
    year_selected df None = Ok (Some y) /\
    In y (years df) /\ (forall y', In y' (years df) -> y' <= y) /\
    state_selected df None = Ok (Some s) /\
    In s (states df) /\ (forall s', In s' (states df) -> String.leb s s' = true).
Proof.
  intros Hne.
  destruct df as [|r df]; [congruence|].
  assert (Hy : years (r :: df) <> []).
  { intros E. assert (H : In (Year r) (years (r :: df))).
    { apply sorted_unique_In; [apply Z.eqb_eq | now left]. }
    rewrite E in H. destruct H. }
  assert (Hs : states (r :: df) <> []).
  { intros E. assert (H : In (State r) (states (r :: df))).
    { apply sorted_unique_In; [apply String.eqb_eq | now left]. }
    rewrite E in H. destruct H. }
  destruct (selectbox_last _ Hy) as [y [Hsel Hlast]].
  destruct (selectbox_first _ Hs) as [s [Hsel' Hfirst]].
  exists y, s. repeat split.
  - exact Hsel.
  - eapply nth_error_In, Hlast.
  - intros y' Hy'.
    destruct (sorted_last_greatest Z.lt _ y (sorted_unique_Z_strict _) Hlast y' Hy'); lia.
  - exact Hsel'.
  - eapply nth_error_In, Hfirst.
  - intros s' Hs'. apply string_leb_ltb.
    destruct (sorted_first_least _ _ s (sorted_unique_str_strict _) Hfirst s' Hs') as [->|H];
      [now right | now left].
Qed.

Lemma selector_defaults_witness :
  exists y s,
    year_selected [mkRow "Lagos" 2014 (1500 # 1); mkRow "Abia" 2015 (2000 # 1)] None
      = Ok (Some y) /\
    In y (years [mkRow "Lagos" 2014 (1500 # 1); mkRow "Abia" 2015 (2000 # 1)]) /\
    (forall y',
        In y' (years [mkRow "Lagos" 2014 (1500 # 1); mkRow "Abia" 2015 (2000 # 1)]) ->
        y' <= y) /\
    state_selected [mkRow "Lagos" 2014 (1500 # 1); mkRow "Abia" 2015 (2000 # 1)] None
      = Ok (Some s) /\
    In s (states [mkRow "Lagos" 2014 (1500 # 1); mkRow "Abia" 2015 (2000 # 1)]) /\
    (forall s',
        In s' (states [mkRow "Lagos" 2014 (1500 # 1); mkRow "Abia" 2015 (2000 # 1)]) ->
        String.leb s s' = true).
Proof.
  apply (selector_defaults [mkRow "Lagos" 2014 (1500 # 1); mkRow "Abia" 2015 (2000 # 1)]).
  discriminate.
Defined.

(** ** Reshaping (lines 28 to 34) *)

Lemma mapM_app {A B : Type} (f : A -> result B) (l1 l2 : list A) :
  mapM f (l1 ++ l2)%list = (r1 <- mapM f l1 ;; r2 <- mapM f l2 ;; Ok (r1 ++ r2)%list).
Proof.
  induction l1 as [|a l1 IH]; simpl.
  - now destruct (mapM f l2).
  - destruct (f a); simpl; [|reflexivity]. rewrite IH.
    destruct (mapM f l1); simpl; [|reflexivity]. now destruct (mapM f l2).
Qed.

Lemma mapM_ok_map {A B : Type} (f : A -> result B) (g : A -> B) (l : list A) :
  (forall x, In x l -> f x = Ok (g x)) -> mapM f l = Ok (map g l).
Proof.
  induction l as [|a l IH]; intros H; simpl; [reflexivity|].
  rewrite (H a) by now left. simpl. rewrite IH; [reflexivity|].
  intros x Hx. apply H. now right.
Qed.


Lemma year_of_token_column_name :
  Forall (fun y => replace "_mean" "" (column_name y) = str y /\
                   removesuffix "_mean" (column_name y) = str y /\
                   year_of_token (column_name y) = Ok y) year_range.
Proof. repeat constructor. Qed.

Lemma melt_ok (gdf : GeoDataFrame) (vars : list string) :
  meltable gdf ->
  (forall v, In v vars -> has_col v gdf = true) ->
  melt gdf vars = Ok (melt_blocks gdf vars).
Proof.
  intros [Hst Hname] H. unfold melt, missing_labels, has_col at 1. rewrite Hname.
  destruct (State_column gdf); [|congruence]. simpl app.
  replace (filter (fun v => negb (has_col v gdf)) vars) with (@nil string); [reflexivity|].
  symmetry. induction vars as [|v vars IH]; [reflexivity|].
  simpl. rewrite (H v) by now left. simpl. apply IH.
  intros w Hw. apply H. now right.
Qed.

Lemma convert_block (gdf : GeoDataFrame) (y : Z) (vals : list Q) :
  year_of_token (column_name y) = Ok y ->
  mapM convert_year (block gdf (column_name y) vals) = Ok (block gdf y vals).
Proof.
  intros Hy. unfold block. rewrite <- (map_map (fun sv => mkRow (fst sv) (column_name y) (snd sv))
    (fun r => mkRow (State r) y (Rainfall r))).
  apply mapM_ok_map. intros r Hr. apply in_map_iff in Hr. destruct Hr as [sv [<- _]].
  unfold convert_year. simpl. now rewrite Hy.
Qed.

Lemma convert_blocks (gdf : GeoDataFrame) (ys : list Z) :
  (forall y, In y ys -> year_of_token (column_name y) = Ok y) ->
  mapM convert_year (melt_blocks gdf (map column_name ys)) = Ok (long_rows gdf ys).
Proof.
  induction ys as [|y ys IH]; intros H; [reflexivity|].
  unfold melt_blocks, long_rows in *. simpl. rewrite mapM_app.
  rewrite IH by (intros z Hz; apply H; now right).
  destruct (get_col (column_name y) (columns gdf)) as [vals|]; [|reflexivity].
  rewrite convert_block by (apply H; now left). reflexivity.
Qed.

Lemma df_new_ok (gdf : GeoDataFrame) :
  meltable gdf -> has_value_columns gdf -> df_new gdf = Ok (long_rows gdf year_range).
Proof.
  intros Hm H. unfold df_new, value_vars. rewrite melt_ok.
  - unfold bind. apply convert_blocks. intros y Hy.
    pose proof year_of_token_column_name as F. rewrite Forall_forall in F.
    now apply F.
  - exact Hm.
  - intros v Hv. apply in_map_iff in Hv. destruct Hv as [y [<- Hy]]. now apply H.
Qed.

Lemma get_col_In (name : string) (cols : list (string * list Q)) (vals : list Q) :
  get_col name cols = Some vals -> In (name, vals) cols.
Proof.
  induction cols as [|[n c] cols IH]; simpl; [discriminate|].
  destruct (String.eqb n name) eqn:E.
  - intros [= ->]. apply String.eqb_eq in E. subst. now left.
  - intros H. right. now apply IH.
Qed.

(** In a well-formed table with the value columns, each of them has one cell
    per row. *)
Lemma value_column (gdf : GeoDataFrame) (y : Z) :
  well_formed gdf -> has_col (column_name y) gdf = true ->
  exists vals, get_col (column_name y) (columns gdf) = Some vals /\
               length vals = length (col_State gdf).
Proof.
  intros Hwf Hcol. unfold has_col in Hcol.
  destruct (get_col (column_name y) (columns gdf)) as [vals|] eqn:E; [|discriminate].
  exists vals. split; [reflexivity|].
  unfold well_formed in Hwf. rewrite Forall_forall in Hwf.
  exact (Hwf _ (get_col_In _ _ _ E)).
Qed.

Lemma combine_fst {A B : Type} (l : list A) (l' : list B) :
  length l' = length l -> map fst (combine l l') = l.
Proof.
  revert l'. induction l as [|a l IH]; intros [|b l'] H; try discriminate; [reflexivity|].
  simpl. f_equal. apply IH. now injection H.
Qed.

Lemma block_keys (gdf : GeoDataFrame) (y : Z) (vals : list Q) :
  length vals = length (col_State gdf) ->
  map (fun r => (State r, Year r)) (block gdf y vals) = map (fun s => (s, y)) (col_State gdf).
Proof.
  intros H. unfold block. rewrite map_map. simpl.
  rewrite <- (combine_fst (col_State gdf) vals H) at 2. now rewrite map_map.
Qed.

Lemma block_length (gdf : GeoDataFrame) (y : Z) (vals : list Q) :
  length vals = length (col_State gdf) -> length (block gdf y vals) = length (col_State gdf).
Proof.
  intros H. unfold block. rewrite length_map, length_combine, H. apply Nat.min_id.
Qed.

Lemma filter_year_block (gdf : GeoDataFrame) (y y' : Z) (vals : list Q) :
  filter (fun r => Year r =? y) (block gdf y' vals)
  = if y' =? y then block gdf y' vals else [].
Proof.
  unfold block. induction (combine (col_State gdf) vals) as [|sv l IH]; simpl.
  - now destruct (y' =? y).
  - rewrite IH. now destruct (y' =? y).
Qed.

Section LongRows.
Variable gdf : GeoDataFrame.
Hypothesis Hwf : well_formed gdf.

Lemma long_rows_keys (ys : list Z) :
  (forall y, In y ys -> has_col (column_name y) gdf = true) ->
  map (fun r => (State r, Year r)) (long_rows gdf ys)
  = flat_map (fun y => map (fun s => (s, y)) (col_State gdf)) ys.
Proof.
  induction ys as [|y ys IH]; intros H; [reflexivity|].
  unfold long_rows in *. simpl. rewrite map_app, IH by (intros z Hz; apply H; now right).
  destruct (value_column gdf y Hwf (H y (or_introl eq_refl))) as [vals [-> Hlen]].
  now rewrite block_keys.
Qed.

Lemma long_rows_length (ys : list Z) :
  (forall y, In y ys -> has_col (column_name y) gdf = true) ->
  length (long_rows gdf ys) = (length (col_State gdf) * length ys)%nat.
Proof.
  induction ys as [|y ys IH]; intros H; [simpl; lia|].
  unfold long_rows in *. simpl. rewrite length_app, IH by (intros z Hz; apply H; now right).
  destruct (value_column gdf y Hwf (H y (or_introl eq_refl))) as [vals [-> Hlen]].
  rewrite block_length by exact Hlen. lia.
Qed.

Lemma long_rows_year (ys : list Z) (y : Z) :
  ~ In y ys -> filter (fun r => Year r =? y) (long_rows gdf ys) = [].
Proof.
  induction ys as [|z ys IH]; intros H; [reflexivity|].
  unfold long_rows in *. simpl. rewrite filter_app, IH by (intros Hin; apply H; now right).
  rewrite app_nil_r. destruct (get_col (column_name z) (columns gdf)); [|reflexivity].
  rewrite filter_year_block. destruct (z =? y) eqn:E; [|reflexivity].
  apply Z.eqb_eq in E. exfalso. apply H. now left.
Qed.

Lemma long_rows_slice (ys : list Z) (y : Z) :
  NoDup ys -> In y ys ->
  (forall z, In z ys -> has_col (column_name z) gdf = true) ->
  exists vals, get_col (column_name y) (columns gdf) = Some vals /\
               length vals = length (col_State gdf) /\
               filter (fun r => Year r =? y) (long_rows gdf ys) = block gdf y vals.
Proof.
  induction 1 as [|z ys Hnin Hnd IH]; intros Hin H; [destruct Hin|].
  unfold long_rows in *. simpl. rewrite filter_app.
  destruct (value_column gdf z Hwf (H z (or_introl eq_refl))) as [vals [Hz Hlen]].
  rewrite Hz, filter_year_block.
  destruct Hin as [->|Hin].
  - exists vals. rewrite Z.eqb_refl. fold (long_rows gdf ys).
    rewrite long_rows_year by exact Hnin. now rewrite app_nil_r.
  - destruct (z =? y) eqn:E.
    + apply Z.eqb_eq in E. subst. contradiction.
    + simpl. apply IH; [exact Hin|]. intros w Hw. apply H. now right.
Qed.
End LongRows.

Lemma map_pair_NoDup {A B : Type} (l : list A) (y : B) :
  NoDup l -> NoDup (map (fun s => (s, y)) l).
Proof.
  induction 1 as [|a l Hnin Hnd IH]; simpl; constructor; [|exact IH].
  intros H. apply in_map_iff in H. destruct H as [b [[= ->] Hb]]. contradiction.
Qed.

Lemma product_NoDup {A B : Type} (l : list A) (ys : list B) :
  NoDup l -> NoDup ys -> NoDup (flat_map (fun y => map (fun s => (s, y)) l) ys).
Proof.
  intros Hl. induction 1 as [|y ys Hnin Hnd IH]; simpl; [constructor|].
  apply NoDup_app; [| exact IH |].
  - now apply map_pair_NoDup.
  - intros [s z] H1 H2. apply in_map_iff in H1. destruct H1 as [s' [[= -> ->] _]].
    apply in_flat_map in H2. destruct H2 as [w [Hw H2]].
    apply in_map_iff in H2. destruct H2 as [s'' [[= _ ->] _]]. contradiction.
Qed.

Lemma year_range_NoDup : NoDup year_range.
Proof.
  repeat constructor; simpl; intros H;
    repeat (destruct H as [H|H]; [discriminate H|]); exact H.
Qed.

(** C1.  On a well-formed table that has the ["State"] column and the
    eleven value columns and no column named ["Rainfall (mm)"], the
    reshaping succeeds and gives [N * 11] records for the [N] rows of the
    table: the (state, year) cells of the records are the product of the
    ["State"] column with the years 2014 to 2024, year by year, so that with
    distinct state names no pair occurs twice; and the slice of every year of
    the range is that year's column in row order, hence has [N] rows. *)
Theorem long_form_complete (gdf : GeoDataFrame) :
  well_formed gdf -> meltable gdf -> has_value_columns gdf ->
  exists records,
    df_new gdf = Ok records /\
    length records = (length (col_State gdf) * 11)%nat /\
    map (fun r => (State r, Year r)) records
      = flat_map (fun y => map (fun s => (s, y)) (col_State gdf))
                 [2014; 2015; 2016; 2017; 2018; 2019; 2020; 2021; 2022; 2023; 2024] /\
    (NoDup (col_State gdf) -> NoDup (map (fun r => (State r, Year r)) records)) /\
    (forall y, 2014 <= y <= 2024 ->
       length (year_data records y) = length (col_State gdf) /\
       exists vals, get_col (column_name y) (columns gdf) = Some vals /\
                    year_data records y = block gdf y vals).
Proof.
  intros Hwf Hmelt Hcols. exists (long_rows gdf year_range).
  split; [now apply df_new_ok|].
  split; [now rewrite long_rows_length|].
  assert (Hkeys := long_rows_keys gdf Hwf year_range Hcols).
  split; [exact Hkeys|].
  split.
  - intros Hnd. rewrite Hkeys. apply product_NoDup; [exact Hnd | apply year_range_NoDup].
  - intros y Hy.
    assert (Hin : In y year_range).
    { unfold year_range, range. simpl.
      assert (E : y = 2014 \/ y = 2015 \/ y = 2016 \/ y = 2017 \/ y = 2018 \/ y = 2019 \/
                  y = 2020 \/ y = 2021 \/ y = 2022 \/ y = 2023 \/ y = 2024) by lia.
      intuition (subst; tauto). }
    destruct (long_rows_slice gdf Hwf year_range y year_range_NoDup Hin Hcols)
      as [vals [Hget [Hlen Hslice]]].
    unfold year_data. rewrite Hslice. split; [now apply block_length|].
    now exists vals.
Qed.

Lemma sample_well_formed : well_formed sample.
Proof. unfold well_formed. simpl. repeat constructor. Qed.

Lemma sample_meltable : meltable sample.
Proof. split; [discriminate | reflexivity]. Qed.

Lemma sample_has_value_columns : has_value_columns sample.
Proof.
  intros y H. simpl in H.
  repeat (destruct H as [<-|H]; [reflexivity|]). destruct H.
Qed.

Lemma long_form_complete_witness :
  exists records,
    df_new sample = Ok records /\ length records = 33%nat /\
    length (year_data records 2014) = 3%nat.
Proof.
  destruct (long_form_complete sample sample_well_formed sample_meltable
              sample_has_value_columns)
    as [records [H1 [H2 [_ [_ H3]]]]].
  exists records. split; [exact H1|]. split; [exact H2|].
  apply (H3 2014). lia.
Defined.

(** ** The series of a state (line 143) *)

Lemma filter_flat_map {A B : Type} (p : B -> bool) (f : A -> list B) (l : list A) :
  filter p (flat_map f l) = flat_map (fun a => filter p (f a)) l.
Proof.
  induction l as [|a l IH]; simpl; [reflexivity|]. now rewrite filter_app, IH.
Qed.

Lemma filter_none {A : Type} (p : A -> bool) (l : list A) :
  (forall x, In x l -> p x = false) -> filter p l = [].
Proof.
  induction l as [|a l IH]; intros H; [reflexivity|].
  simpl. rewrite (H a) by now left. apply IH. intros x Hx. apply H. now right.
Qed.

(** With distinct names, a state has one row in the block of a column. *)
Lemma filter_state_combine (names : list string) (vals : list Q) (s : string) :
  NoDup names -> In s names -> length vals = length names ->
  exists v, filter (fun sv => String.eqb (fst sv) s) (combine names vals) = [(s, v)].
Proof.
  intros Hnd. revert vals. induction Hnd as [|n names Hnin Hnd IH]; intros vals Hin Hlen.
  - destruct Hin.
  - destruct vals as [|v vals]; [discriminate|]. simpl.
    destruct (String.eqb n s) eqn:E.
    + apply String.eqb_eq in E. subst n. exists v. f_equal.
      apply filter_none. intros [s' v'] Hsv. simpl.
      apply in_combine_l in Hsv. apply String.eqb_neq. intros ->. contradiction.
    + destruct Hin as [->|Hin]; [now rewrite String.eqb_refl in E|].
      apply IH; [exact Hin|]. now injection Hlen.
Qed.

Lemma filter_state_block (gdf : GeoDataFrame) (y : Z) (vals : list Q) (s : string) :
  NoDup (col_State gdf) -> In s (col_State gdf) -> length vals = length (col_State gdf) ->
  exists v, filter (fun r => String.eqb (State r) s) (block gdf y vals) = [mkRow s y v].
Proof.
  intros Hnd Hin Hlen.
  destruct (filter_state_combine _ vals s Hnd Hin Hlen) as [v Hv].
  exists v. unfold block.
  assert (E : forall l : list (string * Q),
             filter (fun r : Row Z => String.eqb (State r) s)
                    (map (fun sv => mkRow (fst sv) y (snd sv)) l)
             = map (fun sv => mkRow (fst sv) y (snd sv))
                   (filter (fun sv => String.eqb (fst sv) s) l)).
  { induction l as [|sv l IH]; [reflexivity|]. simpl.
    rewrite IH. now destruct (String.eqb (fst sv) s). }
  now rewrite E, Hv.
Qed.

Lemma state_rows (gdf : GeoDataFrame) (s : string) (ys : list Z) :
  well_formed gdf -> NoDup (col_State gdf) -> In s (col_State gdf) ->
  (forall y, In y ys -> has_col (column_name y) gdf = true) ->
  map Year (filter (fun r => String.eqb (State r) s) (long_rows gdf ys)) = ys /\
  Forall (fun r => State r = s /\
                   exists vals, get_col (column_name (Year r)) (columns gdf) = Some vals /\
                                In (s, Rainfall r) (combine (col_State gdf) vals))
         (filter (fun r => String.eqb (State r) s) (long_rows gdf ys)).
Proof.
  intros Hwf Hnd Hin. induction ys as [|y ys IH]; intros H; [now split|].
  unfold long_rows in *. simpl. rewrite filter_app, map_app.
  destruct (value_column gdf y Hwf (H y (or_introl eq_refl))) as [vals [Hget Hlen]].
  rewrite Hget.
  destruct (filter_state_block gdf y vals s Hnd Hin Hlen) as [v Hv].
  destruct IH as [IH1 IH2]; [intros z Hz; apply H; now right|].
  rewrite Hv, IH1. split; [reflexivity|].
  apply Forall_app. split; [|exact IH2].
  constructor; [|constructor]. simpl. split; [reflexivity|].
  exists vals. split; [exact Hget|].
  assert (Hm : In (mkRow s y v) (filter (fun r => String.eqb (State r) s) (block gdf y vals)))
    by (rewrite Hv; now left).
  apply filter_In in Hm. destruct Hm as [Hm _]. unfold block in Hm.
  apply in_map_iff in Hm. destruct Hm as [[s' v'] [[= -> ->] Hm]]. exact Hm.
Qed.

Lemma Forall_sort {A : Type} (le : A -> A -> bool) (P : A -> Prop) (l : list A) :
  Forall P l -> Forall P (sort le l).
Proof.
  rewrite !Forall_forall. intros H x Hx. apply H. now apply sort_In in Hx.
Qed.

(** C5.  On a well-formed table that has the ["State"] column with
    distinct state names and the eleven value columns and no column named
    ["Rainfall (mm)"], the series of a state that occurs in the long table
    has exactly the years 2014, 2015, ..., 2024 in this order, one record
    each; every record carries the state's name and the state's cell of that
    year's column. *)
Theorem series_for_region (gdf : GeoDataFrame) (region : string) :
  well_formed gdf -> meltable gdf -> has_value_columns gdf -> NoDup (col_State gdf) ->
  exists records,
    df_new gdf = Ok records /\
    (In region (map State records) ->
     map Year (state_data records region)
       = [2014; 2015; 2016; 2017; 2018; 2019; 2020; 2021; 2022; 2023; 2024] /\
     Forall (fun r => State r = region /\
                      exists vals,
                        get_col (column_name (Year r)) (columns gdf) = Some vals /\
                        In (region, Rainfall r) (combine (col_State gdf) vals))
            (state_data records region)).
Proof.
  intros Hwf Hmelt Hcols Hnd. exists (long_rows gdf year_range).
  split; [now apply df_new_ok|]. intros Hin.
  assert (Hs : In region (col_State gdf)).
  { apply in_map_iff in Hin. destruct Hin as [r [<- Hr]].
    assert (Hk : In (State r, Year r)
                    (map (fun r => (State r, Year r)) (long_rows gdf year_range)))
      by (apply in_map_iff; now exists r).
    rewrite (long_rows_keys gdf Hwf year_range Hcols) in Hk.
    apply in_flat_map in Hk. destruct Hk as [y [_ Hk]].
    apply in_map_iff in Hk. now destruct Hk as [s [[= -> _] Hs]]. }
  destruct (state_rows gdf region year_range Hwf Hnd Hs Hcols) as [Hyears Hall].
  unfold state_data. split.
  - rewrite (map_sort Year _ Z.leb) by reflexivity. rewrite Hyears. reflexivity.
  - apply Forall_sort. exact Hall.
Qed.

Lemma series_for_region_witness :
  exists records,
    df_new sample = Ok records /\
    map Year (state_data records "A")
      = [2014; 2015; 2016; 2017; 2018; 2019; 2020; 2021; 2022; 2023; 2024].
Proof.
  assert (Hnd : NoDup (col_State sample)).
  { simpl. repeat constructor; simpl; intros H;
      repeat (destruct H as [H|H]; [discriminate H|]); exact H. }
  destruct (series_for_region sample "A" sample_well_formed sample_meltable
              sample_has_value_columns Hnd)
    as [records [H1 H2]].
  exists records. split; [exact H1|]. apply H2.
  vm_compute in H1. injection H1 as <-. simpl. now left.
Defined.

(** ** The year token (line 34) *)





















(** ** The filters on rows that do not match (lines 50, 82 to 91, 143) *)

Lemma filter_nil_iff {A : Type} (p : A -> bool) (l : list A) :
  filter p l = [] <-> forall x, In x l -> p x = false.
Proof.
  split; [|apply filter_none].
  intros H x Hx. destruct (p x) eqn:E; [|reflexivity].
  assert (Hf : In x (filter p l)) by (apply filter_In; now split).
  rewrite H in Hf. destruct Hf.
Qed.

Lemma sort_nil_iff {A : Type} (le : A -> A -> bool) (l : list A) : sort le l = [] <-> l = [].
Proof.
  split; [|now intros ->]. intros H.
  apply length_zero_iff_nil. rewrite <- (sort_length le), H. reflexivity.
Qed.

(** The two filters are functions on every table and every argument.  The
    year slice keeps the rows of the year and is empty exactly when no row
    has that year; the series keeps the rows of the state and is empty
    exactly when no row has that state.  For an empty slice both ranking
    tables are empty and the side column writes "No data" under both
    headings. *)
Lemma filters_total (df : list (Row Z)) (year : Z) (region : string) :
  (forall r, In r (year_data df year) <-> In r df /\ Year r = year) /\
  (year_data df year = [] <-> forall r, In r df -> Year r <> year) /\
  (forall r, In r (state_data df region) <-> In r df /\ State r = region) /\
  (state_data df region = [] <-> forall r, In r df -> State r <> region) /\
  (year_data df year = [] ->
   show_ranking (top3 (year_data df year)) = write "No data" /\
   show_ranking (low3 (year_data df year)) = write "No data").
Proof.
  split; [|split; [|split; [|split]]].
  - intros r. unfold year_data. rewrite filter_In, Z.eqb_eq. reflexivity.
  - unfold year_data. rewrite filter_nil_iff. split; intros H r Hr.
    + apply Z.eqb_neq. now apply H.
    + apply Z.eqb_neq. now apply H.
  - intros r. unfold state_data. rewrite sort_In, filter_In, String.eqb_eq. reflexivity.
  - unfold state_data. rewrite sort_nil_iff, filter_nil_iff. split; intros H r Hr.
    + apply String.eqb_neq. now apply H.
    + apply String.eqb_neq. now apply H.
  - intros ->. split; reflexivity.
Qed.



(** ** The table returned by [load_data] (lines 13 to 17 and 58) *)

Lemma get_set_col_same (name : string) (vals : list Q) (cols : list (string * list Q)) :
  get_col name (set_col name vals cols) = Some vals.
Proof.
  induction cols as [|[n c] cols IH]; simpl.
  - now rewrite String.eqb_refl.
  - destruct (String.eqb n name) eqn:E; simpl; now rewrite E.
Qed.





Lemma selectbox_some {A : Type} (options : list A) (index : Z) (picked : option nat) :
  options <> [] -> 0 <= index < Z.of_nat (length options) ->
  exists v, selectbox options index picked = Ok (Some v) /\ In v options.
Proof.
  intros Hne Hidx. unfold selectbox. destruct options as [|a l]; [congruence|].
  replace ((0 <=? index) && (index <? Z.of_nat (length (a :: l)))) with true
    by (symmetry; apply andb_true_iff; split; [apply Z.leb_le | apply Z.ltb_lt]; lia).
  assert (Hdef : exists v, nth_error (a :: l) (Z.to_nat index) = Some v /\ In v (a :: l)).
  { destruct (nth_error (a :: l) (Z.to_nat index)) as [v|] eqn:E.
    - exists v. split; [reflexivity|]. eapply nth_error_In, E.
    - apply nth_error_None in E. lia. }
  destruct picked as [i|]; [|destruct Hdef as [v [-> Hv]]; now exists v].
  destruct (nth_error (a :: l) i) as [v|] eqn:E.
  - exists v. split; [reflexivity|]. eapply nth_error_In, E.
  - destruct Hdef as [v [-> Hv]]. now exists v.
Qed.

Lemma long_rows_years (gdf : GeoDataFrame) (ys : list Z) (r : Row Z) :
  In r (long_rows gdf ys) -> In (Year r) ys.
Proof.
  unfold long_rows. rewrite in_flat_map. intros [y [Hy Hr]].
  destruct (get_col (column_name y) (columns gdf)); [|destruct Hr].
  unfold block in Hr. apply in_map_iff in Hr. now destruct Hr as [sv [<- _]].
Qed.

Lemma melt_ok_inv (gdf : GeoDataFrame) (vars : list string) (rows : list (Row string)) :
  melt gdf vars = Ok rows ->
  meltable gdf /\ (forall v, In v vars -> has_col v gdf = true).
Proof.
  unfold melt, missing_labels, meltable, has_col at 1.
  destruct (get_col "Rainfall (mm)" (columns gdf)); [discriminate|].
  destruct (State_column gdf); [|discriminate]. simpl app.
  destruct (filter (fun v => negb (has_col v gdf)) vars) as [|m ms] eqn:Hf; [|discriminate].
  intros _. split; [split; [discriminate | reflexivity]|].
  intros v Hv. destruct (has_col v gdf) eqn:E; [reflexivity|].
  assert (Hin : In v (filter (fun v => negb (has_col v gdf)) vars))
    by (apply filter_In; split; [exact Hv | now rewrite E]).
  rewrite Hf in Hin. destruct Hin.
Qed.

Lemma df_new_ok_inv (gdf : GeoDataFrame) (df : list (Row Z)) :
  df_new gdf = Ok df -> meltable gdf /\ has_value_columns gdf.
Proof.
  unfold df_new. destruct (melt gdf value_vars) as [rows|] eqn:E; [|discriminate].
  intros _. destruct (melt_ok_inv gdf value_vars rows E) as [Hm Hv].
  split; [exact Hm|]. intros y Hy. apply Hv. unfold value_vars. now apply in_map.
Qed.




(** ** The national average (lines 95 to 101) *)

Local Open Scope Q_scope.

Lemma rint_cases (x : Q) :
  (rint x = Qfloor x /\ x - inject_Z (Qfloor x) <= 1 # 2) \/
  (rint x = (Qfloor x + 1)%Z /\ 1 # 2 <= x - inject_Z (Qfloor x)).
Proof.
  unfold rint. destruct (Qcompare_spec (x - inject_Z (Qfloor x)) (1 # 2)) as [H|H|H].
  - destruct (Z.even (Qfloor x)); [left | right]; split; trivial; lra.
  - left. split; [reflexivity | lra].
  - right. split; [reflexivity | lra].
Qed.

Lemma rint_near (x : Q) : x - (1 # 2) <= inject_Z (rint x) /\ inject_Z (rint x) <= x + (1 # 2).
Proof.
  pose proof (Qfloor_le x) as Hlo. pose proof (Qlt_floor x) as Hhi.
  rewrite inject_Z_plus in Hhi. change (inject_Z 1) with 1 in Hhi.
  destruct (rint_cases x) as [[-> H]|[-> H]].
  - split; lra.
  - rewrite inject_Z_plus. change (inject_Z 1) with 1. split; lra.
Qed.

Lemma rint_comp (x y : Q) : x == y -> rint x = rint y.
Proof.
  intros E. unfold rint. rewrite (Qfloor_comp x y E).
  assert (E' : x - inject_Z (Qfloor y) == y - inject_Z (Qfloor y)) by lra.
  now rewrite (Qcompare_comp _ _ E' (1 # 2) (1 # 2) (Qeq_refl _)).
Qed.

Lemma rint_Z (k : Z) : rint (inject_Z k) = k.
Proof.
  unfold rint. rewrite Qfloor_Z.
  destruct (Qcompare_spec (inject_Z k - inject_Z k) (1 # 2)) as [H|H|H];
    [exfalso; lra | reflexivity | exfalso; lra].
Qed.

Lemma rint_mono (x y : Q) : x <= y -> (rint x <= rint y)%Z.
Proof.
  intros Hxy. pose proof (Qfloor_resp_le x y Hxy) as Hf.
  destruct (Z.eq_dec (Qfloor x) (Qfloor y)) as [E|E].
  - unfold rint. rewrite E.
    destruct (Qcompare_spec (x - inject_Z (Qfloor y)) (1 # 2)) as [H1|H1|H1];
      destruct (Qcompare_spec (y - inject_Z (Qfloor y)) (1 # 2)) as [H2|H2|H2];
      try lia; try (exfalso; lra); destruct (Z.even (Qfloor y)); lia.
  - destruct (rint_cases x) as [[-> _]|[-> _]]; destruct (rint_cases y) as [[-> _]|[-> _]]; lia.
Qed.

Lemma round3_unfold (x : Q) : round 3 x = inject_Z (rint (x * 1000)) / 1000.
Proof. reflexivity. Qed.

Lemma round3_near (x : Q) : x - (1 # 2000) <= round 3 x /\ round 3 x <= x + (1 # 2000).
Proof.
  rewrite round3_unfold. destruct (rint_near (x * 1000)) as [H1 H2]. split.
  - apply Qle_shift_div_l; lra.
  - apply Qle_shift_div_r; lra.
Qed.

Lemma round3_mono (x y : Q) : x <= y -> round 3 x <= round 3 y.
Proof.
  intros H. rewrite !round3_unfold.
  assert (Hr : (rint (x * 1000) <= rint (y * 1000))%Z) by (apply rint_mono; lra).
  rewrite Zle_Qle in Hr. apply Qle_shift_div_l; [lra|].
  assert (E : inject_Z (rint (x * 1000)) / 1000 * 1000 == inject_Z (rint (x * 1000))) by field.
  lra.
Qed.

Lemma round3_fixed (k : Z) : round 3 (inject_Z k / 1000) == inject_Z k / 1000.
Proof.
  rewrite round3_unfold.
  assert (E : inject_Z k / 1000 * 1000 == inject_Z k) by field.
  rewrite (rint_comp _ _ E), rint_Z. reflexivity.
Qed.

Lemma fold_min_le_init (l : list Q) (x : Q) : fold_left Qmin l x <= x.
Proof.
  revert x. induction l as [|a l IH]; intros x; simpl; [lra|].
  pose proof (IH (Qmin x a)). pose proof (Q.le_min_l x a). lra.
Qed.

Lemma fold_min_le (l : list Q) (x y : Q) : In y (x :: l) -> fold_left Qmin l x <= y.
Proof.
  revert x. induction l as [|a l IH]; intros x [<-|H].
  - simpl. lra.
  - destruct H.
  - apply fold_min_le_init.
  - simpl. destruct H as [->|H].
    + pose proof (fold_min_le_init l (Qmin x y)). pose proof (Q.le_min_r x y). lra.
    + apply IH. now right.
Qed.

Lemma fold_max_ge_init (l : list Q) (x : Q) : x <= fold_left Qmax l x.
Proof.
  revert x. induction l as [|a l IH]; intros x; simpl; [lra|].
  pose proof (IH (Qmax x a)). pose proof (Q.le_max_l x a). lra.
Qed.

Lemma fold_max_ge (l : list Q) (x y : Q) : In y (x :: l) -> y <= fold_left Qmax l x.
Proof.
  revert x. induction l as [|a l IH]; intros x [<-|H].
  - simpl. lra.
  - destruct H.
  - apply fold_max_ge_init.
  - simpl. destruct H as [->|H].
    + pose proof (fold_max_ge_init l (Qmax x y)). pose proof (Q.le_max_r x y). lra.
    + apply IH. now right.
Qed.

Lemma sum_bounds (l : list Q) (lo hi : Q) :
  (forall y, In y l -> lo <= y /\ y <= hi) ->
  inject_Z (Z.of_nat (length l)) * lo <= sum l /\
  sum l <= inject_Z (Z.of_nat (length l)) * hi.
Proof.
  induction l as [|a l IH]; intros H.
  - simpl. change (inject_Z 0) with 0. split; lra.
  - destruct IH as [IH1 IH2]; [intros y Hy; apply H; now right|].
    destruct (H a (or_introl eq_refl)) as [Ha1 Ha2].
    change (length (a :: l)) with (S (length l)).
    rewrite Nat2Z.inj_succ, <- Z.add_1_r, inject_Z_plus. change (inject_Z 1) with 1.
    simpl sum. split; lra.
Qed.

Lemma mean_bounds (l : list Q) (lo hi : Q) :
  l <> [] -> (forall y, In y l -> lo <= y /\ y <= hi) ->
  exists m, mean l = Some m /\ m == sum l / inject_Z (Z.of_nat (length l)) /\
            lo <= m /\ m <= hi.
Proof.
  intros Hne H. destruct (sum_bounds l lo hi H) as [H1 H2].
  assert (Hn : 0 < inject_Z (Z.of_nat (length l))).
  { change 0 with (inject_Z 0). rewrite <- Zlt_Qlt.
    destruct l; [congruence | simpl; lia]. }
  exists (sum l / inject_Z (Z.of_nat (length l))). split; [|split; [reflexivity|split]].
  - destruct l; [congruence | reflexivity].
  - apply Qle_shift_div_l; [exact Hn | lra].
  - apply Qle_shift_div_r; [exact Hn | lra].
Qed.

Lemma col_min_max (l : list Q) :
  l <> [] ->
  exists vmin vmax, col_min l = Some vmin /\ col_max l = Some vmax /\
                    forall y, In y l -> vmin <= y /\ y <= vmax.
Proof.
  destruct l as [|x l]; [congruence|]. intros _.
  exists (fold_left Qmin l x), (fold_left Qmax l x). repeat split.
  - now apply fold_min_le.
  - now apply fold_max_ge.
Qed.

Lemma national_avg_some (slice : list (Row Z)) (lo hi : Q) :
  slice <> [] -> (forall y, In y (map Rainfall slice) -> lo <= y /\ y <= hi) ->
  exists m avg,
    mean (map Rainfall slice) = Some m /\
    m == sum (map Rainfall slice) / inject_Z (Z.of_nat (length slice)) /\
    lo <= m /\ m <= hi /\
    national_avg slice = Ok avg /\ avg = round 3 m.
Proof.
  intros Hne H.
  assert (Hne' : map Rainfall slice <> []) by (destruct slice; [congruence | discriminate]).
  destruct (mean_bounds _ lo hi Hne' H) as [m [Hm [Hsum [Hlo Hhi]]]].
  rewrite length_map in Hsum.
  exists m, (round 3 m). unfold national_avg. rewrite Hm. now repeat split.
Qed.

(** C4.  Line 95 gives no number exactly for the empty slice, where it
    raises [AttributeError].  For a slice with rows the national average is
    a multiple of 0.001 that lies within 0.0005
    of the sum of the rainfall values divided by their number; on the values
    800, 1000 and 1200 it is 1000. *)
Theorem national_avg_rounded_mean (slice : list (Row Z)) :
  (national_avg slice = Raise AttributeError <-> slice = []) /\
  (slice <> [] ->
   exists avg k,
     national_avg slice = Ok avg /\
     avg == inject_Z k / 1000 /\
     sum (map Rainfall slice) / inject_Z (Z.of_nat (length slice)) - (1 # 2000) <= avg /\
     avg <= sum (map Rainfall slice) / inject_Z (Z.of_nat (length slice)) + (1 # 2000)) /\
  (map Rainfall slice = [800; 1000; 1200] ->
   exists avg, national_avg slice = Ok avg /\ avg == 1000).
Proof.
  split; [|split].
  - split; [|now intros ->].
    destruct slice; [reflexivity | discriminate].
  - intros Hne.
    destruct (col_min_max (map Rainfall slice)) as [lo [hi [_ [_ Hb]]]];
      [destruct slice; [congruence | discriminate]|].
    destruct (national_avg_some slice lo hi Hne Hb) as [m [avg [_ [Hm [_ [_ [Havg ->]]]]]]].
    exists (round 3 m), (rint (m * 1000)). split; [exact Havg|].
    split; [now rewrite round3_unfold|].
    destruct (round3_near m) as [H1 H2]. rewrite <- Hm. split; assumption.
  - intros E. unfold national_avg. rewrite E. eexists. split; reflexivity.
Qed.

Lemma national_avg_rounded_mean_witness :
  exists avg, national_avg [mkRow "A" 2014%Z 800; mkRow "B" 2014%Z 1000; mkRow "C" 2014%Z 1200]
              = Ok avg /\ avg == 1000.
Proof.
  apply (national_avg_rounded_mean
           [mkRow "A" 2014%Z 800; mkRow "B" 2014%Z 1000; mkRow "C" 2014%Z 1200]).
  reflexivity.
Defined.

(** C10, as the program has it.  For a slice with rows the mean lies between
    the least and the greatest rainfall of the slice, and the rounded mean
    within 0.0005 of that interval.  When the least and the greatest value
    are multiples of 0.001, the rounded mean lies between them and the value
    handed to the colour map lies between 0 and 1. *)
Theorem national_avg_within_range (slice : list (Row Z)) :
  slice <> [] ->
  exists m avg vmin vmax,
    mean (map Rainfall slice) = Some m /\
    national_avg slice = Ok avg /\
    col_min (map Rainfall slice) = Some vmin /\
    col_max (map Rainfall slice) = Some vmax /\
    (vmin <= m /\ m <= vmax) /\
    (vmin - (1 # 2000) <= avg /\ avg <= vmax + (1 # 2000)) /\
    ((exists a b, vmin == inject_Z a / 1000 /\ vmax == inject_Z b / 1000) ->
     (vmin <= avg /\ avg <= vmax) /\
     exists n, norm_national_avg slice = Ok n /\ 0 <= n /\ n <= 1).
Proof.
  intros Hne.
  destruct (col_min_max (map Rainfall slice)) as [vmin [vmax [Hmin [Hmax Hb]]]];
    [destruct slice; [congruence | discriminate]|].
  destruct (national_avg_some slice vmin vmax Hne Hb) as [m [avg [Hmean [_ [Hlo [Hhi [Havg ->]]]]]]].
  exists m, (round 3 m), vmin, vmax.
  destruct (round3_near m) as [H1 H2].
  repeat (split; [first [assumption | lra]|]).
  intros [a [b [Ea Eb]]].
  assert (Hin : vmin <= round 3 m /\ round 3 m <= vmax).
  { pose proof (round3_mono _ _ Hlo) as L. pose proof (round3_mono _ _ Hhi) as U.
    pose proof (round3_fixed a) as Fa. pose proof (round3_fixed b) as Fb.
    assert (Ra : round 3 vmin == vmin).
    { rewrite !round3_unfold in *.
      assert (E : vmin * 1000 == inject_Z a / 1000 * 1000) by (rewrite Ea; reflexivity).
      rewrite (rint_comp _ _ E). lra. }
    assert (Rb : round 3 vmax == vmax).
    { rewrite !round3_unfold in *.
      assert (E : vmax * 1000 == inject_Z b / 1000 * 1000) by (rewrite Eb; reflexivity).
      rewrite (rint_comp _ _ E). lra. }
    split; lra. }
  split; [exact Hin|].
  unfold norm_national_avg. rewrite Havg. cbn [bind]. rewrite Hmin, Hmax.
  eexists. split; [reflexivity|].
  unfold Normalize. destruct (Qeq_bool vmin vmax) eqn:E; [split; lra|].
  apply Qeq_bool_neq in E.
  assert (Hlt : 0 < vmax - vmin) by (destruct (Qlt_le_dec vmin vmax); [lra | exfalso; apply E; lra]).
  split.
  - apply Qle_shift_div_l; [exact Hlt | lra].
  - apply Qle_shift_div_r; [exact Hlt | lra].
Qed.

Lemma national_avg_within_range_witness :
  exists m avg vmin vmax,
    mean (map Rainfall [mkRow "A" 2014%Z 800; mkRow "B" 2014%Z 1000]) = Some m /\
    national_avg [mkRow "A" 2014%Z 800; mkRow "B" 2014%Z 1000] = Ok avg /\
    col_min (map Rainfall [mkRow "A" 2014%Z 800; mkRow "B" 2014%Z 1000]) = Some vmin /\
    col_max (map Rainfall [mkRow "A" 2014%Z 800; mkRow "B" 2014%Z 1000]) = Some vmax /\
    (vmin <= m /\ m <= vmax) /\
    (vmin <= avg /\ avg <= vmax) /\
    exists n, norm_national_avg [mkRow "A" 2014%Z 800; mkRow "B" 2014%Z 1000] = Ok n /\
              0 <= n /\ n <= 1.
Proof.
  destruct (national_avg_within_range [mkRow "A" 2014%Z 800; mkRow "B" 2014%Z 1000])
    as [m [avg [vmin [vmax [H1 [H2 [H3 [H4 [H5 [_ H6]]]]]]]]]]; [discriminate|].
  exists m, avg, vmin, vmax.
  split; [exact H1|]. split; [exact H2|]. split; [exact H3|]. split; [exact H4|].
  split; [exact H5|].
  apply H6. exists 800000%Z, 1000000%Z.
  simpl in H3, H4. injection H3 as <-. injection H4 as <-. split; reflexivity.
Defined.

(** C10, as stated for every slice with rows, fails: on three values less
    than 0.0005 apart the rounded mean, 1000, is below the least value,
    1000.0004, and the value handed to the colour map is -4. *)
Lemma rounded_mean_below_minimum :
  close_slice <> [] /\
  national_avg close_slice = Ok (1000000 # 1000) /\
  col_min (map Rainfall close_slice) = Some (10000004 # 10000) /\
  col_max (map Rainfall close_slice) = Some (10000005 # 10000) /\
  (1000000 # 1000) < (10000004 # 10000) /\
  exists n, norm_national_avg close_slice = Ok n /\ n == - (4) /\ n < 0.
Proof.
  split; [discriminate|].
  repeat (split; [reflexivity|]).
  eexists. split; [reflexivity|]. split; reflexivity.
Qed.

Local Close Scope Q_scope.

(** * Further properties of the script *)

(** ** The year token for every integer (lines 30 and 34) *)

Lemma parse_digits_acc (d : Decimal.uint) (acc : positive) :
  parse_digits (Zpos acc) true (NilEmpty.string_of_uint d)
  = Some (Zpos (Pos.of_uint_acc d acc)).
Proof.
  revert acc.
  induction d; intros acc;
    cbn [NilEmpty.string_of_uint Pos.of_uint_acc parse_digits]; [reflexivity| ..];
    rewrite <- IHd;
    match goal with
    | |- context [digit_val ?c] =>
        let v := eval vm_compute in (digit_val c) in change (digit_val c) with v
    end;
    cbv beta iota; f_equal; rewrite ?Pos2Z.inj_add, ?Pos2Z.inj_mul;
    lia.
Qed.

Lemma parse_digits_zero (d : Decimal.uint) :
  parse_digits 0 true (NilEmpty.string_of_uint d) = Some (Z.of_N (Pos.of_uint d)).
Proof.
  induction d; cbn [NilEmpty.string_of_uint Pos.of_uint parse_digits];
    [reflexivity | exact IHd | ..]; apply (parse_digits_acc d).
Qed.

Lemma parse_digits_start (d : Decimal.uint) :
  d <> Decimal.Nil ->
  parse_digits 0 false (NilEmpty.string_of_uint d) = Some (Z.of_N (Pos.of_uint d)).
Proof.
  destruct d; intros H; [congruence | ..];
    cbn [NilEmpty.string_of_uint Pos.of_uint parse_digits];
    [apply parse_digits_zero | ..]; apply (parse_digits_acc d).
Qed.

Lemma lstrip_digits (d : Decimal.uint) :
  lstrip (NilEmpty.string_of_uint d) = NilEmpty.string_of_uint d.
Proof. destruct d; reflexivity. Qed.

Lemma rstrip_digits (d : Decimal.uint) :
  rstrip (NilEmpty.string_of_uint d) = NilEmpty.string_of_uint d.
Proof.
  induction d; cbn [NilEmpty.string_of_uint rstrip]; [reflexivity| ..];
    rewrite IHd; now destruct (NilEmpty.string_of_uint d).
Qed.

Lemma int_digits (d : Decimal.uint) :
  d <> Decimal.Nil -> int (NilEmpty.string_of_uint d) = Some (Z.of_N (Pos.of_uint d)).
Proof.
  intros H. unfold int. rewrite lstrip_digits, rstrip_digits.
  rewrite <- (parse_digits_start d H). now destruct d.
Qed.

Lemma int_minus_digits (d : Decimal.uint) :
  d <> Decimal.Nil ->
  int (String "-" (NilEmpty.string_of_uint d)) = Some (- Z.of_N (Pos.of_uint d)).
Proof.
  intros H. unfold int.
  assert (E : rstrip (lstrip (String "-" (NilEmpty.string_of_uint d)))
              = String "-" (NilEmpty.string_of_uint d)).
  { cbn [lstrip]. change (is_space "-") with false. cbv iota.
    cbn [rstrip]. rewrite rstrip_digits. now destruct (NilEmpty.string_of_uint d). }
  rewrite E. now rewrite (parse_digits_start d H).
Qed.

Lemma int_str (z : Z) : int (str z) = Some z.
Proof.
  unfold str. destruct z as [|p|p]; [reflexivity | |];
    unfold Z.to_int, NilZero.string_of_int, NilZero.string_of_uint.
  - pose proof (DecimalPos.Unsigned.to_uint_nonnil p) as Hn.
    replace (match Pos.to_uint p with
             | Decimal.Nil => "0"
             | _ => NilEmpty.string_of_uint (Pos.to_uint p)
             end) with (NilEmpty.string_of_uint (Pos.to_uint p))
      by (destruct (Pos.to_uint p); [congruence | reflexivity ..]).
    rewrite (int_digits _ Hn), DecimalPos.Unsigned.of_to. reflexivity.
  - pose proof (DecimalPos.Unsigned.to_uint_nonnil p) as Hn.
    replace (match Pos.to_uint p with
             | Decimal.Nil => "0"
             | _ => NilEmpty.string_of_uint (Pos.to_uint p)
             end) with (NilEmpty.string_of_uint (Pos.to_uint p))
      by (destruct (Pos.to_uint p); [congruence | reflexivity ..]).
    rewrite (int_minus_digits _ Hn), DecimalPos.Unsigned.of_to. reflexivity.
Qed.

Lemma replace_digits (d : Decimal.uint) :
  replace "_mean" "" (NilEmpty.string_of_uint d ++ "_mean") = NilEmpty.string_of_uint d.
Proof.
  unfold replace. induction d; [reflexivity| ..];
    cbn [NilEmpty.string_of_uint String.append replace_from]; cbn [prefix];
    now rewrite IHd.
Qed.

Lemma replace_column_name (z : Z) : replace "_mean" "" (column_name z) = str z.
Proof.
  unfold column_name, str.
  destruct z as [|p|p]; [reflexivity | |];
    unfold Z.to_int, NilZero.string_of_int, NilZero.string_of_uint.
  - destruct (Pos.to_uint p) eqn:E; [reflexivity| ..]; rewrite <- E; apply replace_digits.
  - assert (H : forall s, replace "_mean" "" (String "-" s) = String "-" (replace "_mean" "" s))
      by reflexivity.
    cbn [String.append]. rewrite H. f_equal.
    destruct (Pos.to_uint p) eqn:E; [reflexivity| ..]; rewrite <- E; apply replace_digits.
Qed.

(** X1.  Writing a year into a column name and reading it back gives the
    year again, for every integer that fits a 64-bit column and not only for
    the eleven years of the range: [f"{year}_mean"] loses its suffix under
    [replace] and the rest parses as the year. *)
Theorem year_token_round_trip (year : Z) :
  replace "_mean" "" (column_name year) = str year /\
  int (str year) = Some year /\
  (- 2 ^ 63 <= year < 2 ^ 63 -> year_of_token (column_name year) = Ok year).
Proof.
  split; [apply replace_column_name|]. split; [apply int_str|].
  intros H. unfold year_of_token. rewrite replace_column_name, int_str.
  unfold int64_ok.
  replace ((- 2 ^ 63 <=? year) && (year <? 2 ^ 63)) with true; [reflexivity|].
  symmetry. apply andb_true_iff. split; [apply Z.leb_le | apply Z.ltb_lt]; lia.
Qed.

Lemma year_token_round_trip_witness : year_of_token (column_name (-37)) = Ok (-37).
Proof. apply (year_token_round_trip (-37)). lia. Defined.

(** ** How the reshaping fails (lines 28 to 34) *)

Lemma value_vars_In (v : string) :
  In v value_vars <-> exists y, In y year_range /\ v = column_name y.
Proof.
  unfold value_vars. rewrite in_map_iff. split; intros [y [H1 H2]]; exists y; auto.
Qed.

(** X2.  A table that has a column named ["Rainfall (mm)"] makes the
    reshaping raise [ValueError].  On any other table the reshaping succeeds
    exactly when the table has the ["State"] column and the eleven value
    columns; otherwise it raises [KeyError] with the labels that the table
    lacks, ["State"] first and then the value columns in the order of the
    range.  It never fails in the conversion of the year cells. *)
Theorem df_new_fails_with_missing_columns (gdf : GeoDataFrame) :
  (has_col "Rainfall (mm)" gdf = true ->
   df_new gdf = Raise (ValueError "Rainfall (mm)")) /\
  (has_col "Rainfall (mm)" gdf = false ->
   ((exists records, df_new gdf = Ok records)
    <-> State_column gdf <> None /\ has_value_columns gdf) /\
   (forall e, df_new gdf = Raise e ->
      e = KeyError (missing_labels gdf value_vars) /\
      missing_labels gdf value_vars <> [] /\
      forall v, In v (missing_labels gdf value_vars) <->
                (v = "State" /\ State_column gdf = None) \/
                ((exists y, 2014 <= y <= 2024 /\ v = column_name y) /\
                 get_col v (columns gdf) = None))).
Proof.
  assert (Hrange : forall y, In y year_range <-> 2014 <= y <= 2024).
  { intros y. unfold year_range, range. simpl. split.
    - intros H. repeat (destruct H as [<-|H]; [lia|]). destruct H.
    - intros H.
      assert (E : y = 2014 \/ y = 2015 \/ y = 2016 \/ y = 2017 \/ y = 2018 \/ y = 2019 \/
                  y = 2020 \/ y = 2021 \/ y = 2022 \/ y = 2023 \/ y = 2024) by lia.
      intuition (subst; tauto). }
  split.
  - intros H. unfold df_new, melt. now rewrite H.
  - intros Hname.
    assert (Hname' : get_col "Rainfall (mm)" (columns gdf) = None).
    { unfold has_col in Hname. now destruct (get_col "Rainfall (mm)" (columns gdf)). }
    assert (Hmem : forall v, In v (missing_labels gdf value_vars) <->
                (v = "State" /\ State_column gdf = None) \/
                ((exists y, 2014 <= y <= 2024 /\ v = column_name y) /\
                 get_col v (columns gdf) = None)).
    { intros v. unfold missing_labels. rewrite in_app_iff, filter_In, value_vars_In.
      unfold has_col. split.
      - intros [H|[[y [Hy ->]] H]].
        + destruct (State_column gdf); [destruct H|]. destruct H as [<-|[]]. now left.
        + right. split; [exists y; split; [now apply Hrange | reflexivity]|].
          now destruct (get_col (column_name y) (columns gdf)).
      - intros [[-> H]|[[y [Hy ->]] H]].
        + left. rewrite H. now left.
        + right. split; [exists y; split; [now apply Hrange | reflexivity]|].
          now rewrite H. }
    destruct (missing_labels gdf value_vars) as [|m missing] eqn:Hf.
    + assert (Hm : meltable gdf).
      { split; [|exact Hname']. intros E. apply (proj2 (Hmem "State")). left. now split. }
      assert (Hcols : has_value_columns gdf).
      { intros y Hy. unfold has_col.
        destruct (get_col (column_name y) (columns gdf)) eqn:E; [reflexivity|].
        exfalso. apply (proj2 (Hmem (column_name y))). right.
        split; [exists y; split; [now apply Hrange | reflexivity] | exact E]. }
      split.
      * split; [intros _; split; [apply Hm | exact Hcols]|].
        intros _. eexists. now apply df_new_ok.
      * intros e He. rewrite (df_new_ok gdf Hm Hcols) in He. discriminate.
    + assert (Hraise : df_new gdf = Raise (KeyError (m :: missing))).
      { unfold df_new, melt. now rewrite Hname, Hf. }
      split.
      * split.
        -- intros [records H]. rewrite Hraise in H. discriminate.
        -- intros [Hst Hcols].
           rewrite (df_new_ok gdf (conj Hst Hname') Hcols) in Hraise. discriminate.
      * intros e He. rewrite Hraise in He. injection He as <-.
        split; [reflexivity|]. split; [discriminate | exact Hmem].
Qed.

Lemma df_new_fails_with_missing_columns_witness :
  df_new {| State_column := Some ["Lagos"];
            columns := [("Rainfall (mm)", [1500 # 1]%Q)] |}
    = Raise (ValueError "Rainfall (mm)") /\
  KeyError ["State"; "2014_mean"; "2015_mean"; "2016_mean"; "2017_mean"; "2018_mean";
            "2019_mean"; "2020_mean"; "2021_mean"; "2022_mean"; "2023_mean"]
    = KeyError (missing_labels {| State_column := None;
                                  columns := [("2024_mean", [1500 # 1]%Q)] |} value_vars).
Proof.
  split.
  - apply (df_new_fails_with_missing_columns
             {| State_column := Some ["Lagos"];
                columns := [("Rainfall (mm)", [1500 # 1]%Q)] |}).
    reflexivity.
  - destruct (df_new_fails_with_missing_columns
                {| State_column := None; columns := [("2024_mean", [1500 # 1]%Q)] |})
      as [_ H].
    destruct H as [_ H]; [reflexivity|].
    apply (H (KeyError ["State"; "2014_mean"; "2015_mean"; "2016_mean"; "2017_mean";
                        "2018_mean"; "2019_mean"; "2020_mean"; "2021_mean"; "2022_mean";
                        "2023_mean"])).
    reflexivity.
Defined.

(** ** What the selectors offer (lines 37 to 46 and 142) *)

Lemma strictly_sorted_ext {A : Type} (lt : A -> A -> Prop) (l1 l2 : list A) :
  (forall a, ~ lt a a) -> (forall a b c, lt a b -> lt b c -> lt a c) ->
  StronglySorted lt l1 -> StronglySorted lt l2 ->
  (forall x, In x l1 <-> In x l2) -> l1 = l2.
Proof.
  intros Hirr Htr Hs1. revert l2.
  induction Hs1 as [|a l1 Hs1 IH Ha]; intros l2 Hs2 Hext.
  - destruct l2 as [|b l2]; [reflexivity|]. destruct (proj2 (Hext b)). now left.
  - destruct Hs2 as [|b l2 Hs2 Hb]; [destruct (proj1 (Hext a)); now left|].
    rewrite Forall_forall in Ha, Hb.
    assert (E : a = b).
    { destruct (proj1 (Hext a) (or_introl eq_refl)) as [E|Hin]; [now symmetry|].
      destruct (proj2 (Hext b) (or_introl eq_refl)) as [E|Hin']; [exact E|].
      exfalso. apply (Hirr a). apply (Htr a b a); [now apply Ha | now apply Hb]. }
    subst b. f_equal. apply IH; [exact Hs2|].
    intros x. split; intros Hx.
    + destruct (proj1 (Hext x) (or_intror Hx)) as [<-|H]; [|exact H].
      exfalso. exact (Hirr a (Ha a Hx)).
    + destruct (proj2 (Hext x) (or_intror Hx)) as [<-|H]; [|exact H].
      exfalso. exact (Hirr a (Hb a Hx)).
Qed.

Lemma string_ltb_irrefl (a : string) : String.ltb a a <> true.
Proof.
  unfold String.ltb. pose proof (String.compare_antisym a a) as E.
  destruct (String.compare a a); discriminate.
Qed.

Lemma long_rows_cells (gdf : GeoDataFrame) (ys : list Z) :
  well_formed gdf -> (forall y, In y ys -> has_col (column_name y) gdf = true) ->
  forall s y, In (s, y) (map (fun r => (State r, Year r)) (long_rows gdf ys))
              <-> In s (col_State gdf) /\ In y ys.
Proof.
  intros Hwf H s y. rewrite (long_rows_keys gdf Hwf ys H), in_flat_map. split.
  - intros [z [Hz Hin]]. apply in_map_iff in Hin. destruct Hin as [s' [[= -> ->] Hs]].
    now split.
  - intros [Hs Hy]. exists y. split; [exact Hy|]. apply in_map_iff. now exists s.
Qed.

(** X3.  On a well-formed table with rows, the ["State"] column, the eleven
    value columns and no column named ["Rainfall (mm)"], the year selector
    offers exactly 2014, 2015, ..., 2024 and starts on 2024, and the state
    selector offers the sorted distinct names of the ["State"] column. *)
Theorem selector_options (gdf : GeoDataFrame) :
  well_formed gdf -> meltable gdf -> has_value_columns gdf -> col_State gdf <> [] ->
  exists records,
    df_new gdf = Ok records /\
    years records = [2014; 2015; 2016; 2017; 2018; 2019; 2020; 2021; 2022; 2023; 2024] /\
    year_selected records None = Ok (Some 2024) /\
    states records = sorted_unique_str (col_State gdf).
Proof.
  intros Hwf Hmelt Hcols Hrows. exists (long_rows gdf year_range).
  split; [now apply df_new_ok|].
  assert (Hcells := long_rows_cells gdf year_range Hwf Hcols).
  destruct (col_State gdf) as [|s0 names] eqn:Hnames; [congruence|].
  assert (Hy : years (long_rows gdf year_range) = year_range).
  { apply (strictly_sorted_ext Z.lt).
    - intros a. lia.
    - intros a b c. lia.
    - apply sorted_unique_Z_strict.
    - unfold year_range, range. simpl. repeat constructor; lia.
    - intros y. unfold years, sorted_unique_Z. rewrite (sorted_unique_In Z.eqb Z.eqb_eq). split.
      + intros H. apply in_map_iff in H. destruct H as [r [<- Hr]].
        now apply long_rows_years in Hr.
      + intros H. assert (Hin : In (s0, y) (map (fun r => (State r, Year r))
                                                (long_rows gdf year_range)))
          by (apply Hcells; split; [now left | exact H]).
        apply in_map_iff in Hin. destruct Hin as [r [[= _ <-] Hr]].
        apply in_map_iff. now exists r. }
  split; [exact Hy|]. split; [unfold year_selected; rewrite Hy; reflexivity|].
  apply (strictly_sorted_ext (fun a b => String.ltb a b = true)).
  - apply string_ltb_irrefl.
  - apply string_ltb_trans.
  - apply sorted_unique_str_strict.
  - apply sorted_unique_str_strict.
  - intros s. unfold states, sorted_unique_str.
    rewrite !(sorted_unique_In String.eqb String.eqb_eq). split.
    + intros H. apply in_map_iff in H. destruct H as [r [<- Hr]].
      assert (Hin : In (State r, Year r) (map (fun r => (State r, Year r))
                                              (long_rows gdf year_range)))
        by (apply in_map_iff; now exists r).
      now apply Hcells in Hin.
    + intros H. assert (Hin : In (s, 2014) (map (fun r => (State r, Year r))
                                                (long_rows gdf year_range)))
        by (apply Hcells; split; [exact H | now left]).
      apply in_map_iff in Hin. destruct Hin as [r [[= <- _] Hr]].
      apply in_map_iff. now exists r.
Qed.

Lemma selector_options_witness :
  exists records,
    df_new sample = Ok records /\
    years records = [2014; 2015; 2016; 2017; 2018; 2019; 2020; 2021; 2022; 2023; 2024] /\
    year_selected records None = Ok (Some 2024) /\
    states records = sorted_unique_str (col_State sample).
Proof.
  apply (selector_options sample sample_well_formed sample_meltable
           sample_has_value_columns).
  discriminate.
Defined.

(** ** The selection always has rows (lines 46 to 50, 78 to 91, 142, 143) *)

Lemma years_nonempty (df : list (Row Z)) : df <> [] -> years df <> [].
Proof.
  destruct df as [|r df]; [congruence|]. intros _ E.
  assert (H : In (Year r) (years (r :: df))).
  { apply sorted_unique_In; [apply Z.eqb_eq | now left]. }
  rewrite E in H. destruct H.
Qed.

Lemma states_nonempty (df : list (Row Z)) : df <> [] -> states df <> [].
Proof.
  destruct df as [|r df]; [congruence|]. intros _ E.
  assert (H : In (State r) (states (r :: df))).
  { apply sorted_unique_In; [apply String.eqb_eq | now left]. }
  rewrite E in H. destruct H.
Qed.

Lemma show_ranking_table (rows : list (string * Q)) :
  rows <> [] -> show_ranking rows = table rows.
Proof. destruct rows; [congruence | reflexivity]. Qed.

Lemma ranking_nonempty (slice : list (Row Z)) :
  slice <> [] -> top3 slice <> [] /\ low3 slice <> [].
Proof.
  intros Hne.
  assert (Hlen : (0 < length slice)%nat) by (destruct slice; [congruence | simpl; lia]).
  split; intros E; apply (f_equal (@length _)) in E; unfold top3, low3 in E;
    rewrite length_map in E;
    [rewrite nlargest_length in E | rewrite nsmallest_length in E];
    change (length (@nil (string * Q))) with 0%nat in E; lia.
Qed.

(** X4.  Whatever the user picks, the two selectors do not raise.  On an
    empty table both hold [None].  On a table with rows the year selector
    holds a year of the table, so the year slice has rows and the side
    column shows two tables, never "No data"; the state selector holds a
    state of the table and its series has rows. *)
Theorem selection_has_rows (df : list (Row Z)) (picked_year picked_state : option nat) :
  (df = [] ->
   year_selected df picked_year = Ok None /\ state_selected df picked_state = Ok None) /\
  (df <> [] ->
   exists y s,
     year_selected df picked_year = Ok (Some y) /\
     In y (years df) /\
     year_data df y <> [] /\
     show_ranking (top3 (year_data df y)) = table (top3 (year_data df y)) /\
     show_ranking (low3 (year_data df y)) = table (low3 (year_data df y)) /\
     state_selected df picked_state = Ok (Some s) /\
     In s (states df) /\
     state_data df s <> []).
Proof.
  split; [intros ->; now split|]. intros Hne.
  destruct (selectbox_some (years df) (Z.of_nat (length (years df)) - 1) picked_year
              (years_nonempty df Hne)) as [y [Hsel Hy]].
  { pose proof (years_nonempty df Hne). destruct (years df); [congruence | simpl length; lia]. }
  destruct (selectbox_some (states df) 0 picked_state (states_nonempty df Hne))
    as [s [Hsel' Hs]].
  { pose proof (states_nonempty df Hne). destruct (states df); [congruence | simpl length; lia]. }
  exists y, s.
  assert (Hslice : year_data df y <> []).
  { apply (sorted_unique_In Z.eqb Z.eqb_eq) in Hy. apply in_map_iff in Hy.
    destruct Hy as [r [Hr Hin]]. intros E.
    assert (H : In r (year_data df y)) by (apply filter_In; split; [exact Hin | now apply Z.eqb_eq]).
    rewrite E in H. destruct H. }
  destruct (ranking_nonempty _ Hslice) as [Htop Hlow].
  repeat (split; [first [assumption | now apply show_ranking_table]|]).
  apply (sorted_unique_In String.eqb String.eqb_eq) in Hs. apply in_map_iff in Hs.
  destruct Hs as [r [Hr Hin]]. intros E. apply sort_nil_iff in E.
  assert (H : In r (filter (fun r => String.eqb (State r) s) df))
    by (apply filter_In; split; [exact Hin | now apply String.eqb_eq]).
  rewrite E in H. destruct H.
Qed.

Lemma selection_has_rows_witness :
  exists y s,
    year_selected [mkRow "Lagos" 2014 (1500 # 1); mkRow "Abia" 2015 (2000 # 1)] (Some 0%nat)
      = Ok (Some y) /\
    year_data [mkRow "Lagos" 2014 (1500 # 1); mkRow "Abia" 2015 (2000 # 1)] y <> [] /\
    state_selected [mkRow "Lagos" 2014 (1500 # 1); mkRow "Abia" 2015 (2000 # 1)] (Some 7%nat)
      = Ok (Some s) /\
    state_data [mkRow "Lagos" 2014 (1500 # 1); mkRow "Abia" 2015 (2000 # 1)] s <> [].
Proof.
  destruct (selection_has_rows
              [mkRow "Lagos" 2014 (1500 # 1); mkRow "Abia" 2015 (2000 # 1)]
              (Some 0%nat) (Some 7%nat)) as [_ H].
  destruct H as [y [s [H1 [_ [H2 [_ [_ [H3 [_ H4]]]]]]]]]; [discriminate|].
  now exists y, s.
Defined.

Lemma selection_rows_year (df : list (Row Z)) (picked : option nat) :
  df <> [] -> exists y, year_selected df picked = Ok (Some y) /\ In y (years df).
Proof.
  intros Hne.
  destruct (selectbox_some (years df) (Z.of_nat (length (years df)) - 1) picked
              (years_nonempty df Hne)) as [y [Hsel Hy]].
  { pose proof (years_nonempty df Hne). destruct (years df); [congruence | simpl length; lia]. }
  now exists y.
Qed.

(** ** The map column and the year slice (lines 50 to 58) *)

Lemma combine_snd {A B : Type} (l : list A) (l' : list B) :
  length l' = length l -> map snd (combine l l') = l'.
Proof.
  revert l'. induction l as [|a l IH]; intros [|b l'] H; try discriminate; [reflexivity|].
  simpl. f_equal. apply IH. now injection H.
Qed.

Lemma block_columns (gdf : GeoDataFrame) (y : Z) (vals : list Q) :
  length vals = length (col_State gdf) ->
  map State (block gdf y vals) = col_State gdf /\ map Rainfall (block gdf y vals) = vals.
Proof.
  intros H. unfold block. rewrite !map_map. simpl. split.
  - now apply combine_fst.
  - now apply combine_snd.
Qed.

(** X5.  In a run on a well-formed table with rows and the eleven value
    columns, the selected year is one of 2014 to 2024, and the column
    ["Rainfall (mm)"] that line 58 puts on the map table is, row by row,
    the rainfall column of the year slice that feeds the side tables and the
    donut; the states of the slice are the ["State"] column of the table. *)
Theorem map_column_matches_slice (file : GeoDataFrame) (cache : option GeoDataFrame)
    (picked : option nat) (cache' : option GeoDataFrame) (gdf' : GeoDataFrame) :
  well_formed (snd (load_data file cache)) ->
  has_value_columns (snd (load_data file cache)) ->
  col_State (snd (load_data file cache)) <> [] ->
  run file cache picked = Ok (cache', gdf') ->
  exists records y,
    df_new (snd (load_data file cache)) = Ok records /\
    year_selected records picked = Ok (Some y) /\
    2014 <= y <= 2024 /\
    map State (year_data records y) = col_State gdf' /\
    get_col "Rainfall (mm)" (columns gdf') = Some (map Rainfall (year_data records y)).
Proof.
  unfold run. destruct (load_data file cache) as [c gdf]. simpl snd.
  intros Hwf Hcols Hrows H.
  assert (Hmelt : meltable gdf).
  { destruct (df_new gdf) as [df|] eqn:Hdf; [|discriminate H].
    apply (df_new_ok_inv gdf df Hdf). }
  rewrite (df_new_ok gdf Hmelt Hcols) in H |- *. cbn [bind] in H.
  exists (long_rows gdf year_range).
  assert (Hne : long_rows gdf year_range <> []).
  { intros E. apply (f_equal (@length _)) in E.
    rewrite (long_rows_length gdf Hwf year_range Hcols) in E.
    destruct (col_State gdf); [congruence | discriminate E]. }
  destruct (selection_rows_year (long_rows gdf year_range) picked Hne) as [y [Hsel Hy]].
  rewrite Hsel in H. cbn [bind] in H.
  assert (Hin : In y year_range).
  { apply (sorted_unique_In Z.eqb Z.eqb_eq) in Hy. apply in_map_iff in Hy.
    destruct Hy as [r [<- Hr]]. now apply long_rows_years in Hr. }
  destruct (long_rows_slice gdf Hwf year_range y year_range_NoDup Hin Hcols)
    as [vals [Hget [Hlen Hslice]]].
  unfold assign_rainfall, selected_column in H. rewrite Hget in H. cbn [bind] in H.
  injection H as <- <-. exists y.
  destruct (block_columns gdf y vals Hlen) as [Hst Hrain].
  unfold year_data. rewrite Hslice, Hst, Hrain. unfold col_State. cbn [columns State_column].
  repeat split; try reflexivity.
  - exact Hsel.
  - unfold year_range, range in Hin. simpl in Hin.
    repeat (destruct Hin as [<-|Hin]; [lia|]). destruct Hin.
  - unfold year_range, range in Hin. simpl in Hin.
    repeat (destruct Hin as [<-|Hin]; [lia|]). destruct Hin.
  - apply get_set_col_same.
Qed.

Lemma map_column_matches_slice_witness :
  exists records y,
    df_new sample = Ok records /\
    year_selected records (Some 0%nat) = Ok (Some y) /\
    get_col "Rainfall (mm)"
      (columns {| State_column := Some ["A"; "B"; "C"];
                  columns := (map sample_column year_range
                              ++ [("Rainfall (mm)", [100 # 1; 200 # 1; 300 # 1]%Q)])%list |})
    = Some (map Rainfall (year_data records y)).
Proof.
  destruct (map_column_matches_slice sample None (Some 0%nat) (Some sample)
              {| State_column := Some ["A"; "B"; "C"];
                 columns := (map sample_column year_range
                             ++ [("Rainfall (mm)", [100 # 1; 200 # 1; 300 # 1]%Q)])%list |})
    as [records [y [H1 [H2 [_ [_ H3]]]]]].
  - exact sample_well_formed.
  - exact sample_has_value_columns.
  - discriminate.
  - reflexivity.
  - now exists records, y.
Defined.

(** ** The written table and the reshaping (lines 28 and 58) *)



(** ** The information dialog (lines 149 to 193) *)

Lemma session_dismissed (runs : list buttons) : session (Some false) runs = Some false.
Proof.
  unfold session. induction runs as [|b runs IH]; [reflexivity|].
  simpl. replace (show_info (info_script (Some false) b)) with (Some false); [exact IH|].
  unfold info_script, show_info_modal. now destruct (sidebar_info_btn b), (modal_ok_btn b).
Qed.

Lemma session_open (flag : option bool) (runs : list buttons) :
  flag <> Some false -> runs <> [] ->
  session flag runs = Some (negb (existsb modal_ok_btn runs)).
Proof.
  revert flag. induction runs as [|b runs IH]; intros flag Hflag Hne; [congruence|].
  assert (Hstep : show_info (info_script flag b) = Some (negb (modal_ok_btn b))).
  { unfold info_script, show_info_modal.
    destruct flag as [[|]|]; try congruence; now destruct (modal_ok_btn b). }
  change (session flag (b :: runs)) with (session (show_info (info_script flag b)) runs).
  rewrite Hstep. simpl existsb. destruct (modal_ok_btn b); simpl.
  - apply session_dismissed.
  - destruct runs as [|b' runs]; [reflexivity|]. apply IH; discriminate.
Qed.

(** X7.  In a session that starts without the flag, the flag is set from the
    first run on and is true until a run in which the OK button was pressed,
    and false ever after.  So the dialog opens in every run until OK has
    been pressed once, and afterwards only in the runs in which "View Info"
    was pressed; the side bar button is drawn exactly in the runs after that
    first OK; and a rerun is asked for exactly when OK is pressed in an open
    dialog. *)
Theorem info_dialog_until_ok (runs : list buttons) (b : buttons) :
  (runs <> [] -> session None runs = Some (negb (existsb modal_ok_btn runs))) /\
  dialog (info_script (session None runs) b)
    = negb (existsb modal_ok_btn runs) || sidebar_info_btn b /\
  sidebar_button (info_script (session None runs) b) = existsb modal_ok_btn runs /\
  rerun (info_script (session None runs) b)
    = dialog (info_script (session None runs) b) && modal_ok_btn b /\
  show_info (info_script (session None runs) b)
    = Some (negb (existsb modal_ok_btn runs || modal_ok_btn b)).
Proof.
  split; [apply session_open; discriminate|].
  destruct runs as [|b0 runs].
  - simpl. unfold info_script, show_info_modal. now destruct (modal_ok_btn b).
  - rewrite session_open by discriminate.
    destruct (existsb modal_ok_btn (b0 :: runs)); simpl;
      unfold info_script, show_info_modal;
      now destruct (sidebar_info_btn b), (modal_ok_btn b).
Qed.

Lemma info_dialog_until_ok_witness :
  session None [{| modal_ok_btn := false; sidebar_info_btn := false |};
                {| modal_ok_btn := true; sidebar_info_btn := false |};
                {| modal_ok_btn := false; sidebar_info_btn := true |}]
  = Some false.
Proof.
  destruct (info_dialog_until_ok
              [{| modal_ok_btn := false; sidebar_info_btn := false |};
               {| modal_ok_btn := true; sidebar_info_btn := false |};
               {| modal_ok_btn := false; sidebar_info_btn := true |}]
              {| modal_ok_btn := false; sidebar_info_btn := false |}) as [H _].
  apply H. discriminate.
Defined.

(** ** The colour of the donut label (lines 95 to 118) *)

Local Open Scope Q_scope.

(** X8.  For a slice with rows the label of the donut is blue exactly when
    the least and the greatest rainfall differ and the rounded average is
    above their midpoint, and black otherwise; in particular it is black
    when all values are equal. *)
Theorem font_color_midpoint (slice : list (Row Z)) :
  slice <> [] ->
  exists avg vmin vmax,
    national_avg slice = Ok avg /\
    col_min (map Rainfall slice) = Some vmin /\
    col_max (map Rainfall slice) = Some vmax /\
    (font_color slice = Ok "blue"%string <-> vmin < vmax /\ vmin + vmax < 2 * avg) /\
    (font_color slice = Ok "black"%string <-> ~ (vmin < vmax /\ vmin + vmax < 2 * avg)).
Proof.
  intros Hne.
  destruct (national_avg_within_range slice Hne)
    as [m [avg [vmin [vmax [_ [Havg [Hmin [Hmax [[Hlo Hhi] _]]]]]]]]].
  exists avg, vmin, vmax. repeat (split; [assumption|]).
  unfold font_color, norm_national_avg. rewrite Havg. cbn [bind]. rewrite Hmin, Hmax.
  cbn [bind]. unfold Normalize.
  destruct (Qeq_bool vmin vmax) eqn:E.
  - apply Qeq_bool_iff in E. change (Qle_bool 0 (1 # 2)) with true. cbv iota.
    assert (Hno : ~ (vmin < vmax /\ vmin + vmax < 2 * avg)) by (intros [H _]; lra).
    split; split; intros H; [discriminate H | exfalso; exact (Hno H) | exact Hno | reflexivity].
  - apply Qeq_bool_neq in E.
    assert (Hd : 0 < vmax - vmin)
      by (destruct (Qlt_le_dec vmin vmax); [lra | exfalso; apply E; lra]).
    assert (Hn : (avg - vmin) / (vmax - vmin) * (vmax - vmin) == avg - vmin)
      by (field; lra).
    destruct (Qle_bool ((avg - vmin) / (vmax - vmin)) (1 # 2)) eqn:L.
    + apply Qle_bool_iff in L.
      pose proof (Qmult_le_compat_r _ _ (vmax - vmin) L (Qlt_le_weak _ _ Hd)) as M.
      assert (Hno : ~ (vmin < vmax /\ vmin + vmax < 2 * avg)) by (intros [_ H]; lra).
      split; split; intros H; [discriminate H | exfalso; exact (Hno H) | exact Hno | reflexivity].
    + assert (L' : 1 # 2 < (avg - vmin) / (vmax - vmin)).
      { destruct (Qlt_le_dec (1 # 2) ((avg - vmin) / (vmax - vmin))) as [H|H]; [exact H|].
        apply Qle_bool_iff in H. congruence. }
      pose proof (proj2 (Qmult_lt_r _ _ (vmax - vmin) Hd) L') as M.
      assert (Hyes : vmin < vmax /\ vmin + vmax < 2 * avg) by (split; lra).
      split; split; intros H; [exact Hyes | reflexivity | discriminate H | exfalso; exact (H Hyes)].
Qed.

Lemma font_color_midpoint_witness :
  exists avg vmin vmax,
    national_avg [mkRow "A" 2014%Z 100; mkRow "B" 2014%Z 200; mkRow "C" 2014%Z 900]
      = Ok avg /\
    col_min (map Rainfall [mkRow "A" 2014%Z 100; mkRow "B" 2014%Z 200; mkRow "C" 2014%Z 900])
      = Some vmin /\
    col_max (map Rainfall [mkRow "A" 2014%Z 100; mkRow "B" 2014%Z 200; mkRow "C" 2014%Z 900])
      = Some vmax /\
    ~ (vmin < vmax /\ vmin + vmax < 2 * avg).
Proof.
  destruct (font_color_midpoint
              [mkRow "A" 2014%Z 100; mkRow "B" 2014%Z 200; mkRow "C" 2014%Z 900])
    as [avg [vmin [vmax [H1 [H2 [H3 [_ H4]]]]]]]; [discriminate|].
  exists avg, vmin, vmax. repeat (split; [assumption|]).
  apply H4. reflexivity.
Defined.

(** ** The head of the ranking tables (lines 78, 79 and 98) *)

Lemma fold_max_lub (l : list Q) (x hi : Q) :
  (forall y, In y (x :: l) -> y <= hi) -> fold_left Qmax l x <= hi.
Proof.
  revert x. induction l as [|a l IH]; intros x H; simpl.
  - apply H. now left.
  - apply IH. intros y [<-|Hy].
    + apply Q.max_lub; apply H; [now left | right; now left].
    + apply H. right. now right.
Qed.

Lemma fold_min_glb (l : list Q) (x lo : Q) :
  (forall y, In y (x :: l) -> lo <= y) -> lo <= fold_left Qmin l x.
Proof.
  revert x. induction l as [|a l IH]; intros x H; simpl.
  - apply H. now left.
  - apply IH. intros y [<-|Hy].
    + apply Q.min_glb; apply H; [now left | right; now left].
    + apply H. right. now right.
Qed.

Lemma nlargest_head_bound {A : Type} (key : A -> Q) (n : nat) (l : list A) (t : A)
    (rest : list A) :
  nlargest n key l = t :: rest -> forall x, In x l -> key x <= key t.
Proof.
  intros E x Hx.
  destruct (nlargest_rest key n l) as [out [Hperm Hout]].
  apply (Permutation_in _ Hperm) in Hx. apply in_app_or in Hx. destruct Hx as [Hx|Hx].
  - pose proof (nlargest_sorted key n l) as Hs. rewrite E in Hs, Hx.
    inversion_clear Hs as [|? ? _ Hall]. destruct Hx as [<-|Hx]; [apply Qle_refl|].
    rewrite Forall_forall in Hall. now apply Hall.
  - apply Hout; [|exact Hx]. rewrite E. now left.
Qed.

Lemma nsmallest_head_bound {A : Type} (key : A -> Q) (n : nat) (l : list A) (t : A)
    (rest : list A) :
  nsmallest n key l = t :: rest -> forall x, In x l -> key t <= key x.
Proof.
  intros E x Hx.
  destruct (nsmallest_rest key n l) as [out [Hperm Hout]].
  apply (Permutation_in _ Hperm) in Hx. apply in_app_or in Hx. destruct Hx as [Hx|Hx].
  - pose proof (nsmallest_sorted key n l) as Hs. rewrite E in Hs, Hx.
    inversion_clear Hs as [|? ? _ Hall]. destruct Hx as [<-|Hx]; [apply Qle_refl|].
    rewrite Forall_forall in Hall. now apply Hall.
  - apply Hout; [|exact Hx]. rewrite E. now left.
Qed.

(** X9.  For a slice with rows, the first row of the top table is a row of
    the slice whose rainfall is the maximum that line 98 computes, and the
    first row of the bottom table one whose rainfall is the minimum. *)
Theorem ranking_heads_are_extremes (slice : list (Row Z)) :
  slice <> [] ->
  exists t top b low vmin vmax,
    top3 slice = t :: top /\ low3 slice = b :: low /\
    In t (map state_rainfall slice) /\ In b (map state_rainfall slice) /\
    col_max (map Rainfall slice) = Some vmax /\ snd t == vmax /\
    col_min (map Rainfall slice) = Some vmin /\ snd b == vmin.
Proof.
  intros Hne. destruct (ranking_nonempty slice Hne) as [Ht Hb].
  destruct (top3 slice) as [|t top] eqn:Etop; [congruence|].
  destruct (low3 slice) as [|b low] eqn:Elow; [congruence|].
  rewrite top3_rows in Etop. rewrite low3_rows in Elow.
  assert (Hin_t : In t (map state_rainfall slice)).
  { apply (sort_In (descending snd)), (In_firstn 3).
    unfold nlargest in Etop. rewrite Etop. now left. }
  assert (Hin_b : In b (map state_rainfall slice)).
  { apply (sort_In (ascending snd)), (In_firstn 3).
    unfold nsmallest in Elow. rewrite Elow. now left. }
  assert (Hvals : map Rainfall slice = map snd (map state_rainfall slice))
    by (rewrite map_map; reflexivity).
  destruct (map Rainfall slice) as [|x l] eqn:Ex; [destruct slice; [congruence | discriminate]|].
  exists t, top, b, low, (fold_left Qmin l x), (fold_left Qmax l x).
  repeat (split; [first [assumption | reflexivity]|]).
  assert (Ht' : In (snd t) (x :: l)) by (rewrite Hvals; now apply in_map).
  assert (Hb' : In (snd b) (x :: l)) by (rewrite Hvals; now apply in_map).
  split; [|split; [reflexivity|]].
  - apply Qle_antisym; [now apply fold_max_ge|].
    apply fold_max_lub. intros y Hy. rewrite Hvals in Hy. apply in_map_iff in Hy.
    destruct Hy as [r [<- Hr]]. exact (nlargest_head_bound snd 3 _ t top Etop r Hr).
  - apply Qle_antisym; [|now apply fold_min_le].
    apply fold_min_glb. intros y Hy. rewrite Hvals in Hy. apply in_map_iff in Hy.
    destruct Hy as [r [<- Hr]]. exact (nsmallest_head_bound snd 3 _ b low Elow r Hr).
Qed.

Lemma ranking_heads_are_extremes_witness :
  exists t top b low,
    top3 close_slice = t :: top /\ low3 close_slice = b :: low /\
    snd t == 10000005 # 10000 /\ snd b == 10000004 # 10000.
Proof.
  destruct (ranking_heads_are_extremes close_slice)
    as [t [top [b [low [vmin [vmax [H1 [H2 [_ [_ [H3 [H4 [H5 H6]]]]]]]]]]]]]; [discriminate|].
  exists t, top, b, low. split; [exact H1|]. split; [exact H2|].
  simpl in H3, H5. injection H3 as <-. injection H5 as <-. split; assumption.
Defined.

Local Close Scope Q_scope.

(** ** The series of a state on any table (line 143) *)

(** X10.  On every table, also one with repeated state names, the series of
    a state has the rows of that state, each as often as the table has it,
    in non-decreasing order of the year. *)
Theorem state_series_ordered (df : list (Row Z)) (state : string) :
  StronglySorted (fun a b => Year a <= Year b) (state_data df state) /\
  Permutation (state_data df state) (filter (fun r => String.eqb (State r) state) df).
Proof.
  unfold state_data. split; [|apply sort_perm].
  apply StronglySorted_impl with (R := fun a b => (Year a <=? Year b) = true).
  - intros a b. apply Z.leb_le.
  - apply sort_strongly_sorted.
    + intros a b. apply Z_leb_total.
    + intros a b c. apply Z_leb_trans.
Qed.

(** ** Top and bottom tables without and with ties (lines 78 and 79) *)

Section StrictSort.
Context {A : Type} (le : A -> A -> bool) (tied : A -> A -> Prop) (lt : A -> A -> Prop).
Hypothesis le_lt : forall a b, le a b = true -> ~ tied a b -> lt a b.
Hypothesis nle_lt : forall a b, le a b = false -> lt b a.
Hypothesis lt_trans : forall a b c, lt a b -> lt b c -> lt a c.

Lemma insert_strict (a : A) (s : list A) :
  StronglySorted lt s -> Forall (fun b => ~ tied a b) s ->
  StronglySorted lt (insert le a s).
Proof.
  induction 1 as [|b s Hs IH Hb]; intros Hd; simpl; [repeat constructor|].
  inversion_clear Hd as [|? ? Hab Hd']. rewrite Forall_forall in Hb.
  destruct (le a b) eqn:E.
  - constructor; [now constructor; [|apply Forall_forall]|].
    constructor; [now apply le_lt|]. apply Forall_forall. intros x Hx.
    apply (lt_trans a b x); [now apply le_lt | now apply Hb].
  - constructor; [now apply IH|]. apply Forall_forall. intros x Hx.
    apply (Permutation_in _ (insert_perm le a s)) in Hx. destruct Hx as [<-|Hx].
    + now apply nle_lt.
    + now apply Hb.
Qed.

Lemma sort_strict (l : list A) :
  ForallOrdPairs (fun a b => ~ tied a b) l -> StronglySorted lt (sort le l).
Proof.
  induction 1 as [|a l Ha Hl IH]; simpl; [constructor|].
  apply insert_strict; [exact IH|]. now apply Forall_sort.
Qed.
End StrictSort.

Lemma StronglySorted_app {A : Type} (R : A -> A -> Prop) (l1 l2 : list A) :
  StronglySorted R l1 -> StronglySorted R l2 ->
  (forall x y, In x l1 -> In y l2 -> R x y) -> StronglySorted R (l1 ++ l2).
Proof.
  induction 1 as [|a l1 Hs IH Ha]; intros H2 Hx; simpl; [exact H2|].
  constructor.
  - apply IH; [exact H2|]. intros x y Hi Hj. apply Hx; [now right | exact Hj].
  - apply Forall_app. split; [exact Ha|]. apply Forall_forall. intros y Hy.
    apply Hx; [now left | exact Hy].
Qed.

Lemma StronglySorted_rev {A : Type} (R : A -> A -> Prop) (l : list A) :
  StronglySorted R l -> StronglySorted (fun a b => R b a) (rev l).
Proof.
  induction 1 as [|a l Hs IH Ha]; simpl; [constructor|].
  apply StronglySorted_app; [exact IH | repeat constructor|].
  intros x y Hx [<-|[]]. rewrite Forall_forall in Ha. apply Ha. now apply in_rev.
Qed.

Lemma all_tied_sorted {A : Type} (le : A -> A -> bool) (l : list A) :
  (forall a b, In a l -> In b l -> le a b = true) -> Sorted (fun a b => le a b = true) l.
Proof.
  induction l as [|a l IH]; intros H; constructor.
  - apply IH. intros x y Hx Hy. apply H; now right.
  - destruct l as [|b l]; constructor. apply H; [now left | right; now left].
Qed.

Section RankingTies.
Context {A : Type} (key : A -> Q).

Lemma sort_descending_strict (l : list A) :
  ForallOrdPairs (fun a b => ~ (key a == key b)%Q) l ->
  StronglySorted (fun a b => (key b < key a)%Q) (sort (descending key) l).
Proof.
  apply (sort_strict (descending key) (fun a b => (key a == key b)%Q)).
  - intros a b H Hn. unfold descending in H. apply Qle_bool_iff in H.
    destruct (Qlt_le_dec (key b) (key a)) as [L|L]; [exact L|].
    exfalso. apply Hn. now apply Qle_antisym.
  - intros a b H. unfold descending in H.
    destruct (Qlt_le_dec (key a) (key b)) as [L|L]; [exact L|].
    apply Qle_bool_iff in L. congruence.
  - intros a b c H1 H2. exact (Qlt_trans _ _ _ H2 H1).
Qed.

Lemma sort_ascending_strict (l : list A) :
  ForallOrdPairs (fun a b => ~ (key a == key b)%Q) l ->
  StronglySorted (fun a b => (key a < key b)%Q) (sort (ascending key) l).
Proof.
  apply (sort_strict (ascending key) (fun a b => (key a == key b)%Q)).
  - intros a b H Hn. unfold ascending in H. apply Qle_bool_iff in H.
    destruct (Qlt_le_dec (key a) (key b)) as [L|L]; [exact L|].
    exfalso. apply Hn. now apply Qle_antisym.
  - intros a b H. unfold ascending in H.
    destruct (Qlt_le_dec (key b) (key a)) as [L|L]; [exact L|].
    apply Qle_bool_iff in L. congruence.
  - intros a b c. apply Qlt_trans.
Qed.

(** Without ties the ascending order is the descending order reversed. *)
Lemma sort_ascending_rev (l : list A) :
  ForallOrdPairs (fun a b => ~ (key a == key b)%Q) l ->
  sort (ascending key) l = rev (sort (descending key) l).
Proof.
  intros Hd. apply (strictly_sorted_ext (fun a b => (key a < key b)%Q)).
  - intros a. apply Qlt_irrefl.
  - intros a b c. apply Qlt_trans.
  - now apply sort_ascending_strict.
  - apply (StronglySorted_rev (fun a b => (key b < key a)%Q)).
    now apply sort_descending_strict.
  - intros x. now rewrite <- in_rev, !sort_In.
Qed.

Lemma nlargest_above_nsmallest (n : nat) (l : list A) (t b : A) :
  ForallOrdPairs (fun a b => ~ (key a == key b)%Q) l ->
  (2 * n <= length l)%nat ->
  In t (nlargest n key l) -> In b (nsmallest n key l) -> (key b < key t)%Q.
Proof.
  intros Hd Hlen Ht Hb. unfold nlargest, nsmallest in *.
  rewrite (sort_ascending_rev l Hd), firstn_rev, <- in_rev, sort_length in Hb.
  replace (length l - n)%nat with ((length l - 2 * n) + n)%nat in Hb by lia.
  rewrite <- skipn_skipn in Hb. apply In_skipn in Hb.
  exact (StronglySorted_firstn_skipn (fun a b => (key b < key a)%Q) n _
           (sort_descending_strict l Hd) t b Ht Hb).
Qed.

Lemma sort_all_tied (l : list A) :
  (forall a b, In a l -> In b l -> (key a == key b)%Q) ->
  sort (descending key) l = l /\ sort (ascending key) l = l.
Proof.
  intros H. split; apply sort_sorted_id, all_tied_sorted; intros a b Ha Hb;
    apply Qle_bool_iff; rewrite (H a b Ha Hb); apply Qle_refl.
Qed.
End RankingTies.

Lemma ForallOrdPairs_map {A B : Type} (f : A -> B) (R : B -> B -> Prop) (l : list A) :
  ForallOrdPairs (fun a b => R (f a) (f b)) l -> ForallOrdPairs R (map f l).
Proof.
  induction 1 as [|a l Ha Hl IH]; simpl; constructor; [|exact IH].
  apply Forall_map. exact Ha.
Qed.

(** X11.  If no two rows of a slice have the same rainfall and the slice has
    at least six rows, every value of the top table is strictly above every
    value of the bottom table, so the two tables share no row.  If all rows
    have the same rainfall, both tables are the first three rows of the
    slice, in slice order. *)
Theorem ranking_tables_with_and_without_ties (slice : list (Row Z)) :
  (ForallOrdPairs (fun a b => ~ (Rainfall a == Rainfall b)%Q) slice ->
   (6 <= length slice)%nat ->
   forall t b, In t (top3 slice) -> In b (low3 slice) ->
               (snd b < snd t)%Q /\ t <> b) /\
  ((forall a b, In a slice -> In b slice -> (Rainfall a == Rainfall b)%Q) ->
   top3 slice = map state_rainfall (firstn 3 slice) /\
   low3 slice = map state_rainfall (firstn 3 slice)).
Proof.
  split.
  - intros Hd Hlen t b Ht Hb. rewrite top3_rows in Ht. rewrite low3_rows in Hb.
    assert (Hlt : (snd b < snd t)%Q).
    { apply (nlargest_above_nsmallest snd 3 (map state_rainfall slice)); trivial.
      - apply ForallOrdPairs_map. exact Hd.
      - rewrite length_map. lia. }
    split; [exact Hlt|]. intros ->. exact (Qlt_irrefl _ Hlt).
  - intros H. destruct (sort_all_tied Rainfall slice H) as [E1 E2].
    unfold top3, low3, nlargest, nsmallest. now rewrite E1, E2.
Qed.

Lemma ranking_tables_with_and_without_ties_witness :
  top3 [mkRow "A" 2014 (700 # 1); mkRow "B" 2014 (700 # 1); mkRow "C" 2014 (700 # 1);
        mkRow "D" 2014 (700 # 1); mkRow "E" 2014 (700 # 1); mkRow "F" 2014 (700 # 1)]
  = [("A", 700 # 1); ("B", 700 # 1); ("C", 700 # 1)]%Q /\
  ((snd ("A", 100 # 1) < snd ("F", 600 # 1))%Q /\ ("F", (600 # 1)%Q) <> ("A", (100 # 1)%Q)).
Proof.
  split.
  - apply (ranking_tables_with_and_without_ties
             [mkRow "A" 2014 (700 # 1); mkRow "B" 2014 (700 # 1); mkRow "C" 2014 (700 # 1);
              mkRow "D" 2014 (700 # 1); mkRow "E" 2014 (700 # 1); mkRow "F" 2014 (700 # 1)]).
    intros a b Ha Hb. simpl in Ha, Hb.
    repeat (destruct Ha as [<-|Ha]; [repeat (destruct Hb as [<-|Hb]; [reflexivity|]);
                                     destruct Hb|]).
    destruct Ha.
  - apply (ranking_tables_with_and_without_ties
             [mkRow "A" 2014 (100 # 1); mkRow "B" 2014 (200 # 1); mkRow "C" 2014 (300 # 1);
              mkRow "D" 2014 (400 # 1); mkRow "E" 2014 (500 # 1); mkRow "F" 2014 (600 # 1)]).
    + repeat constructor; simpl; intros H; discriminate H.
    + simpl. lia.
    + simpl. now left.
    + simpl. now left.
Defined.
